(** * Legal agent PoC: session store, citation lineage, retrieval filters, seeding

    A shallow embedding of [legal-agent-poc/src/main.py], [agent.py] and
    [vectorstore.py].

    - The two SQLite tables are lists of rows in rowid (insertion) order.
      [TEXT] columns are [string]s; SQLite compares them bytewise, which is
      [String.compare].
    - Handlers that can raise return an [outcome]; the SQLite connection and
      the Qdrant client are threaded as explicit state.
    - The LLM agent, the embedding provider and the nearest-neighbour search
      are outside the repository: they are section variables. *)

From Stdlib Require Import String Ascii QArith.
From stdpp Require Import base list strings gmap sorting.

(** ** Python [str] operations *)

(** [needle in hay] on Python strings. *)
Fixpoint contains (needle hay : string) : bool :=
  String.prefix needle hay ||
  match hay with
  | EmptyString => false
  | String _ hay' => contains needle hay'
  end.

(** ** Exceptions *)

Inductive exn :=
| IntegrityError (constraint : string)   (* sqlite3.IntegrityError *)
| UpstreamError (what : string).         (* agent, OpenAI or Qdrant failure *)

Inductive outcome (A : Type) :=
| Ok (a : A)
| Raised (e : exn).
Arguments Ok {A} a.
Arguments Raised {A} e.

(** A computation over a store [S] that may raise; what was committed before
    the exception stays committed. *)
Definition M (S A : Type) : Type := S → S * outcome A.

#[global] Instance M_ret {S} : MRet (M S) := λ A a s, (s, Ok a).
#[global] Instance M_bind {S} : MBind (M S) := λ A B k m s,
  match m s with
  | (s', Ok a) => k a s'
  | (s', Raised e) => (s', Raised e)
  end.
Definition gets {S A} (f : S → A) : M S A := λ s, (s, Ok (f s)).
Definition modify {S} (f : S → S) : M S unit := λ s, (f s, Ok tt).
Definition lift {S A} (o : outcome A) : M S A := λ s, (s, o).

(** ** [ORDER BY] *)

(** SQL leaves the order of rows with equal keys open; the model keeps them
    in scan order (a stable insertion sort). *)
Section order_by.
Context {A : Type} (le : A → A → bool).

Fixpoint sorted_insert (x : A) (l : list A) : list A :=
  match l with
  | [] => [x]
  | y :: l' => if le x y then x :: y :: l' else y :: sorted_insert x l'
  end.

Definition order_by (l : list A) : list A := foldr sorted_insert [] l.
End order_by.

(** ** Retrieval tool layer ([vectorstore.py], [agent.py]) *)

Definition COLLECTION_NAME : string := "legal_documents".
Definition EMBEDDING_MODEL : string := "text-embedding-3-small".
Definition EMBEDDING_DIM : Z := 1536.

(** Payload stored with each point. *)
Record payload := Payload {
  p_document_id : string;
  p_title : string;
  p_section : string;
  p_text : string
}.

(** The dict built by [search_documents] for one hit. *)
Record document (float : Type) := Document {
  d_document_id : string;
  d_title : string;
  d_section : string;
  d_text : string;
  d_score : float
}.
Arguments Document {float}.
Arguments d_document_id {float}.
Arguments d_title {float}.
Arguments d_section {float}.
Arguments d_text {float}.
Arguments d_score {float}.

(** A hit of [client.query_points]. *)
Record ScoredPoint (float : Type) := {
  sp_payload : payload;
  sp_score : float
}.
Arguments sp_payload {float}.
Arguments sp_score {float}.

Section retrieval.
(** Python floats are only carried around, never computed on. *)
Context {float vector : Type}.
(** [openai ... embeddings.create(input, model)]. *)
Context (get_embedding : string → outcome vector).
(** [client.query_points(collection_name, query, limit, with_payload=True).points]. *)
Context (query_points : string → vector → nat → outcome (list (ScoredPoint float))).

Definition search_documents (query : string) (limit : nat)
  : outcome (list (document float)) :=
  match get_embedding query with
  | Raised e => Raised e
  | Ok query_embedding =>
    match query_points COLLECTION_NAME query_embedding limit with
    | Raised e => Raised e
    | Ok points =>
      Ok (map (λ point,
               {| d_document_id := p_document_id (sp_payload point);
                  d_title := p_title (sp_payload point);
                  d_section := p_section (sp_payload point);
                  d_text := p_text (sp_payload point);
                  d_score := sp_score point |}) points)
    end
  end.

Definition is_case_law (r : document float) : bool :=
  contains "BGer" (d_title r) || contains "Mietgericht" (d_title r).

Definition is_statute (r : document float) : bool :=
  contains "OR Art" (d_title r).

Definition search_case_law (query : string) : outcome (list (document float)) :=
  match search_documents query 3 with
  | Raised e => Raised e
  | Ok results => Ok (List.filter is_case_law results)
  end.

Definition search_statutes (query : string) : outcome (list (document float)) :=
  match search_documents query 3 with
  | Raised e => Raised e
  | Ok results => Ok (List.filter is_statute results)
  end.
End retrieval.

(** ** Persisted schema ([models.py], [_init_db]) *)

(** [LegalSource]; [relevance_score] and [retrieved_at] are kept as the JSON
    tokens stored in the [result_json] column. *)
Record LegalSource := {
  ls_document_id : string;
  ls_title : string;
  ls_section : string;
  ls_retrieved_text : string;
  ls_relevance_score : string;
  ls_retrieved_at : string
}.

Record LegalResult := {
  answer : string;
  sources_cited : list LegalSource;
  confidence : string;
  reasoning : string
}.

(** [sessions(session_id TEXT PRIMARY KEY, created_at TEXT NOT NULL)] *)
Record session_row := {
  s_session_id : string;
  s_created_at : string
}.

(** A row of [queries]. [result_json] is only ever written by [post_query],
    as [model_dump_json()] of a [LegalResult], and only ever read back by
    [json.loads]: the row carries the [LegalResult] itself. *)
Record query_row := {
  q_query_id : string;
  q_session_id : string;
  q_user_query : string;
  q_result_json : LegalResult;
  q_messages_json : string;
  q_created_at : string
}.

Record database := {
  sessions : list session_row;
  queries : list query_row
}.

Definition empty_database : database := {| sessions := []; queries := [] |}.

(** The [PRIMARY KEY] constraints. *)
Definition primary_keys (db : database) : Prop :=
  NoDup (s_session_id <$> sessions db) ∧ NoDup (q_query_id <$> queries db).

(** ** SQL statements of [main.py] *)

(** [SELECT 1 FROM sessions WHERE session_id = ?], [fetchone()]. *)
Definition select_session (db : database) (session_id : string) : option session_row :=
  find (λ s, String.eqb (s_session_id s) session_id) (sessions db).

(** [INSERT INTO sessions (session_id, created_at) VALUES (?, ?)] and
    [commit()]. *)
Definition insert_session (session_id now : string) : M database unit := λ db,
  if existsb (λ s, String.eqb (s_session_id s) session_id) (sessions db)
  then (db, Raised (IntegrityError "UNIQUE constraint failed: sessions.session_id"))
  else ({| sessions := sessions db ++ [ {| s_session_id := session_id;
                                            s_created_at := now |} ];
           queries := queries db |}, Ok tt).

(** [INSERT INTO queries (...) VALUES (?, ?, ?, ?, ?, ?)] and [commit()].
    SQLite does not enforce the foreign key unless asked to. *)
Definition insert_query (row : query_row) : M database unit := λ db,
  if existsb (λ q, String.eqb (q_query_id q) (q_query_id row)) (queries db)
  then (db, Raised (IntegrityError "UNIQUE constraint failed: queries.query_id"))
  else ({| sessions := sessions db; queries := queries db ++ [row] |}, Ok tt).

Definition created_at_le (a b : query_row) : bool :=
  String.leb (q_created_at a) (q_created_at b).

(** [... FROM queries WHERE session_id = ? ORDER BY created_at], [fetchall()]. *)
Definition select_queries (db : database) (session_id : string) : list query_row :=
  order_by created_at_le
    (List.filter (λ q, String.eqb (q_session_id q) session_id) (queries db)).

(** ** [POST /query] *)

Record QueryRequest := {
  qr_query : string;
  qr_session_id : option string
}.

Record LegalDeps := {
  deps_session_id : string;
  deps_user_query : string
}.

Record query_response := {
  resp_session_id : string;
  resp_query_id : string;
  resp_result : LegalResult
}.

(** Lines 73-82: "Ensure session exists". *)
Definition ensure_session (session_id now : string) : M database unit :=
  existing ← gets (λ db, select_session db session_id);
  if existing is None then insert_session session_id now else mret tt.

(** Lines 84-93: the [messages_json] of [prev_rows[-1]], or [None]. *)
Definition load_last_history (session_id : string) : M database (option string) :=
  prev_rows ← gets (λ db, q_messages_json <$> select_queries db session_id);
  mret (last prev_rows).

Section agent.
(** [pydantic_ai] messages, [ModelMessagesTypeAdapter] and
    [legal_agent.run]; the run yields [result.output] and
    [result.new_messages()]. *)
Context {messages : Type}.
Context (validate_json : string → messages) (dump_json : messages → string).
Context (legal_agent_run :
           string → LegalDeps → option messages → outcome (LegalResult * messages)).

(** [fresh_uuid] and [query_id] are the two [uuid.uuid4()] draws, [now] the
    clock reading. An empty [session_id] is falsy and replaced as well. *)
Definition post_query (req : QueryRequest) (fresh_uuid query_id now : string)
  : M database query_response :=
  let session_id :=
    match qr_session_id req with
    | Some s => if String.eqb s "" then fresh_uuid else s
    | None => fresh_uuid
    end in
  ensure_session session_id now;;
  last_messages_json ← load_last_history session_id;
  let message_history := validate_json <$> last_messages_json in
  let deps := {| deps_session_id := session_id; deps_user_query := qr_query req |} in
  result ← lift (legal_agent_run (qr_query req) deps message_history);
  let new_messages_json := dump_json result.2 in
  insert_query {| q_query_id := query_id;
                  q_session_id := session_id;
                  q_user_query := qr_query req;
                  q_result_json := result.1;
                  q_messages_json := new_messages_json;
                  q_created_at := now |};;
  mret {| resp_session_id := session_id;
          resp_query_id := query_id;
          resp_result := result.1 |}.
End agent.

(** ** [ensure_session] statement by statement *)

(** The check and the insert are two statements on a connection of the
    request's own; another request's statements can run in between. *)
Inductive ensure_pc :=
| AtSelect
| AtInsert (existing : option session_row)
| Finished (r : outcome unit).

Definition ensure_step (session_id now : string) (pc : ensure_pc) (db : database)
  : database * ensure_pc :=
  match pc with
  | AtSelect => (db, AtInsert (select_session db session_id))
  | AtInsert existing =>
    if existing is None
    then let '(db', r) := insert_session session_id now db in (db', Finished r)
    else (db, Finished (Ok tt))
  | Finished r => (db, Finished r)
  end.

(** Two requests for the same [session_id]; the schedule says whose statement
    runs next ([false]: the first request, [true]: the second). *)
Fixpoint run_ensure_pair (session_id now1 now2 : string) (schedule : list bool)
    (db : database) (pc1 pc2 : ensure_pc) : database * ensure_pc * ensure_pc :=
  match schedule with
  | [] => (db, pc1, pc2)
  | false :: schedule' =>
    let '(db', pc1') := ensure_step session_id now1 pc1 db in
    run_ensure_pair session_id now1 now2 schedule' db' pc1' pc2
  | true :: schedule' =>
    let '(db', pc2') := ensure_step session_id now2 pc2 db in
    run_ensure_pair session_id now1 now2 schedule' db' pc1 pc2'
  end.

(** ** [GET /lineage/{session_id}] *)

Record lineage_query := {
  lq_query_id : string;
  lq_user_query : string;
  lq_answer : string;
  lq_confidence : string;
  lq_reasoning : string;
  lq_sources_cited : list LegalSource;
  lq_created_at : string
}.

Record lineage := {
  l_session_id : string;
  total_queries : nat;
  unique_sources : nat;
  l_queries : list lineage_query;
  all_sources : list LegalSource
}.

(** [seen_sources] is a [dict]: keys in insertion order. *)
Definition seen_dict := list (string * LegalSource).

Definition dict_contains (seen : seen_dict) (doc_id : string) : bool :=
  existsb (λ kv, String.eqb kv.1 doc_id) seen.

(** Body of [for source in sources]. *)
Definition see_source (seen : seen_dict) (source : LegalSource) : seen_dict :=
  let doc_id := ls_document_id source in
  if dict_contains seen doc_id then seen else seen ++ [(doc_id, source)].

Definition lineage_entry (row : query_row) : lineage_query :=
  {| lq_query_id := q_query_id row;
     lq_user_query := q_user_query row;
     lq_answer := answer (q_result_json row);
     lq_confidence := confidence (q_result_json row);
     lq_reasoning := reasoning (q_result_json row);
     lq_sources_cited := sources_cited (q_result_json row);
     lq_created_at := q_created_at row |}.

(** Body of [for row in rows]. *)
Definition lineage_row (acc : list lineage_query * seen_dict) (row : query_row)
  : list lineage_query * seen_dict :=
  let sources := sources_cited (q_result_json row) in
  (acc.1 ++ [lineage_entry row], foldl see_source acc.2 sources).

Definition get_lineage (session_id : string) : M database lineage :=
  rows ← gets (λ db, select_queries db session_id);
  if rows is [] then
    mret {| l_session_id := session_id;
            total_queries := 0;
            unique_sources := 0;
            l_queries := [];
            all_sources := [] |}
  else
    let '(queries, seen_sources) := foldl lineage_row ([], []) rows in
    mret {| l_session_id := session_id;
            total_queries := length queries;
            unique_sources := length seen_sources;
            l_queries := queries;
            all_sources := seen_sources.*2 |}.

(** ** [GET /sessions] *)

Record session_info := {
  si_session_id : string;
  si_created_at : string;
  si_query_count : nat
}.

(** [sessions s LEFT JOIN queries q ON s.session_id = q.session_id]: the
    rows for one session [s]; without a matching query, one row with [q]
    all [NULL]. *)
Definition join_rows (db : database) (s : session_row)
  : list (session_row * option query_row) :=
  match List.filter (λ q, String.eqb (s_session_id s) (q_session_id q)) (queries db) with
  | [] => [(s, None)]
  | matching => (λ q, (s, Some q)) <$> matching
  end.

Definition left_join (db : database) : list (session_row * option query_row) :=
  flat_map (join_rows db) (sessions db).

(** The keys of [GROUP BY s.session_id]. *)
Definition group_keys (joined : list (session_row * option query_row)) : list string :=
  order_by String.leb (remove_dups ((λ r, s_session_id r.1) <$> joined)).

(** One output row per group. [COUNT(q.query_id)] counts the rows of the
    group whose [q.query_id] is not [NULL]; the bare column [s.created_at]
    is read from a row of the group. *)
Definition group_row (joined : list (session_row * option query_row)) (key : string)
  : session_info :=
  let group := List.filter (λ r, String.eqb (s_session_id r.1) key) joined in
  {| si_session_id := key;
     si_created_at := match group with r :: _ => s_created_at r.1 | [] => "" end;
     si_query_count :=
       length (List.filter (λ r, if r.2 is Some _ then true else false) group) |}.

(** [ORDER BY s.created_at DESC] *)
Definition created_at_ge (a b : session_info) : bool :=
  String.leb (si_created_at b) (si_created_at a).

Definition list_sessions : M database (list session_info) :=
  rows ← gets (λ db, let joined := left_join db in
                      order_by created_at_ge (group_row joined <$> group_keys joined));
  mret rows.

(** ** Seeding ([vectorstore.py]) *)

Record seed_document := {
  sd_document_id : string;
  sd_title : string;
  sd_section : string;
  sd_text : string
}.

Definition SEED_DOCUMENTS : list seed_document := [
  {| sd_document_id := "or-art-271";
     sd_title := "OR Art. 271 — Protection Against Termination";
     sd_section := "Art. 271 OR (Code of Obligations)";
     sd_text :=
       "A termination of a residential or commercial lease may be contested " +:+
       "if it contravenes the principle of good faith. In particular, a " +:+
       "termination is contestable if given because the tenant asserts claims " +:+
       "arising from the lease in good faith, because the tenant is affiliated " +:+
       "with an organisation that represents the interests of tenants, or " +:+
       "during proceedings related to the lease. The burden of proof for " +:+
       "retaliatory motive rests with the tenant." |};
  {| sd_document_id := "or-art-271a";
     sd_title := "OR Art. 271a — Annulment of Termination";
     sd_section := "Art. 271a OR (Code of Obligations)";
     sd_text :=
       "A termination by the landlord is annullable if given during or within " +:+
       "three years after the conclusion of conciliation or court proceedings " +:+
       "related to the tenancy, unless the proceedings were initiated in a " +:+
       "frivolous manner. A termination is also annullable if given in " +:+
       "retaliation for the tenant exercising rights under the lease, such as " +:+
       "demanding repairs or reporting defects to the authorities. The " +:+
       "three-year protection period begins from the date of final judgment." |};
  {| sd_document_id := "or-art-259a";
     sd_title := "OR Art. 259a — Tenant Remedies for Defects";
     sd_section := "Art. 259a OR (Code of Obligations)";
     sd_text :=
       "If a defect arises during the tenancy that the tenant is not obliged " +:+
       "to remedy and that cannot be attributed to the tenant, the tenant may " +:+
       "demand that the landlord remedy the defect, reduce the rent in " +:+
       "proportion to the defect, or claim damages. For minor defects, the " +:+
       "tenant must notify the landlord and allow reasonable time for repair. " +:+
       "For serious defects affecting habitability, the tenant may deposit " +:+
       "rent with the authorities and seek immediate remediation." |};
  {| sd_document_id := "bger-4a-123-2024";
     sd_title := "BGer 4A_123/2024 — Federal Supreme Court";
     sd_section := "Judgment of 15 March 2024";
     sd_text :=
       "The Federal Supreme Court held that a termination notice served " +:+
       "within six months of the tenant filing a complaint about mould and " +:+
       "structural dampness was retaliatory within the meaning of Art. 271a " +:+
       "OR. The landlord failed to demonstrate a legitimate economic interest " +:+
       "independent of the complaint. The court emphasised that temporal " +:+
       "proximity between a tenant's assertion of rights and a subsequent " +:+
       "termination creates a strong presumption of retaliation that the " +:+
       "landlord must rebut with concrete evidence." |};
  {| sd_document_id := "bger-4a-456-2023";
     sd_title := "BGer 4A_456/2023 — Federal Supreme Court";
     sd_section := "Judgment of 22 November 2023";
     sd_text :=
       "In this case the Federal Supreme Court examined whether a planned " +:+
       "comprehensive renovation constituted a valid ground for termination " +:+
       "under Art. 271 OR. The court ruled that renovation alone does not " +:+
       "justify termination unless the landlord proves that continued " +:+
       "occupancy would render the renovation substantially more expensive " +:+
       "or technically impossible. Mere inconvenience to the construction " +:+
       "schedule is insufficient. The tenant's long occupancy of 18 years " +:+
       "was a factor weighing against termination." |};
  {| sd_document_id := "zh-mietgericht-2024-31";
     sd_title := "ZH Mietgericht 2024/31 — Zurich Rental Court";
     sd_section := "Decision of 8 July 2024";
     sd_text :=
       "The Zurich Rental Court granted the tenant's petition to annul a " +:+
       "termination notice issued after the tenant reported persistent water " +:+
       "ingress and requested a rent reduction. The court found that the " +:+
       "landlord's stated reason — personal use by a family member — was " +:+
       "pretextual, as no concrete plans for personal use were presented. " +:+
       "The court awarded the tenant an extension of the lease by two years " +:+
       "and ordered the landlord to remedy the reported defects within 90 " +:+
       "days." |}
].

(** *** The Qdrant client, as far as [seed_collection] uses it *)

Inductive Distance := COSINE | EUCLID | DOT | MANHATTAN.

Record VectorParams := {
  vp_size : Z;
  vp_distance : Distance
}.

Record PointStruct (vector : Type) := {
  ps_id : Z;
  ps_vector : vector;
  ps_payload : payload
}.
Arguments ps_id {vector}.
Arguments ps_vector {vector}.
Arguments ps_payload {vector}.

(** A collection: its vector configuration and its points by id. *)
Record collection (vector : Type) := {
  c_config : VectorParams;
  c_points : gmap Z (vector * payload)
}.
Arguments c_config {vector}.
Arguments c_points {vector}.

Section seeding.
Context {vector : Type}.
Context (get_embedding : string → outcome vector).

(** The server's collections by name. *)
Abbreviation qdrant := (gmap string (collection vector)).

Definition collection_exists (name : string) : M qdrant bool :=
  gets (λ st : qdrant, if st !! name is Some _ then true else false).

Definition delete_collection (name : string) : M qdrant unit :=
  modify (λ st : qdrant, delete name st).

(** Creating a collection that exists is refused by the server. *)
Definition create_collection (name : string) (vectors_config : VectorParams)
  : M qdrant unit := λ st,
  match st !! name with
  | Some _ => (st, Raised (UpstreamError "collection already exists"))
  | None => (<[name := {| c_config := vectors_config; c_points := ∅ |}]> st, Ok tt)
  end.

(** Insert each point, overwriting a point with the same id. *)
Definition upsert (name : string) (points : list (PointStruct vector))
  : M qdrant unit := λ st,
  match st !! name with
  | None => (st, Raised (UpstreamError "collection not found"))
  | Some c =>
    (<[name := {| c_config := c_config c;
                  c_points := foldl (λ m p, <[ps_id p := (ps_vector p, ps_payload p)]> m)
                                    (c_points c) points |}]> st, Ok tt)
  end.

(** [for i, doc in enumerate(SEED_DOCUMENTS)], from index [i] on. *)
Fixpoint embed_documents (i : nat) (docs : list seed_document)
    (points : list (PointStruct vector)) : outcome (list (PointStruct vector)) :=
  match docs with
  | [] => Ok points
  | doc :: docs' =>
    match get_embedding (sd_text doc) with
    | Raised e => Raised e
    | Ok embedding =>
      embed_documents (S i) docs'
        (points ++ [ {| ps_id := Z.of_nat i;
                        ps_vector := embedding;
                        ps_payload := {| p_document_id := sd_document_id doc;
                                         p_title := sd_title doc;
                                         p_section := sd_section doc;
                                         p_text := sd_text doc |} |} ])
    end
  end.

Definition seed_collection : M qdrant unit :=
  already ← collection_exists COLLECTION_NAME;
  (if already : bool then delete_collection COLLECTION_NAME else mret tt);;
  create_collection COLLECTION_NAME
    {| vp_size := EMBEDDING_DIM; vp_distance := COSINE |};;
  points ← lift (embed_documents 0 SEED_DOCUMENTS []);
  upsert COLLECTION_NAME points.
End seeding.

(** ** Sample data *)

Module Sample.
(** Two hits as in the case-law filter test, and a hit of neither kind. *)
Definition hit (title : string) (score : Q) : ScoredPoint Q :=
  {| sp_payload := {| p_document_id := ""; p_title := title;
                      p_section := ""; p_text := "" |};
     sp_score := score |}.

Definition doc (title : string) (score : Q) : document Q :=
  {| d_document_id := ""; d_title := title; d_section := ""; d_text := "";
     d_score := score |}.

Definition embedding (text : string) : outcome (list Q) := Ok [].

Definition mixed_hits (name : string) (query : list Q) (limit : nat)
  : outcome (list (ScoredPoint Q)) :=
  Ok [hit "BGer 1" (9 # 10); hit "OR Art 5" (8 # 10)].

Definition other_hits (name : string) (query : list Q) (limit : nat)
  : outcome (list (ScoredPoint Q)) :=
  Ok [hit "Commentary on tenancy law" (5 # 10)].

(** Citations [A, B, A', C]: [A'] cites the document of [A] again. *)
Definition source (doc_id text : string) : LegalSource :=
  {| ls_document_id := doc_id; ls_title := ""; ls_section := "";
     ls_retrieved_text := text; ls_relevance_score := "0.5";
     ls_retrieved_at := "2024-05-01T10:00:00Z" |}.

Definition A := source "or-art-271" "first".
Definition B := source "bger-4a-123-2024" "second".
Definition A' := source "or-art-271" "third".
Definition C := source "or-art-259a" "fourth".

Definition result (sources : list LegalSource) : LegalResult :=
  {| answer := "answer"; sources_cited := sources; confidence := "medium";
     reasoning := "reasoning" |}.

(** Session [s1] has two queries, inserted out of timestamp order; [s2] has
    one; [s3] has none. *)
Definition db : database :=
  {| sessions :=
       [ {| s_session_id := "s1"; s_created_at := "2024-05-01T10:00:00+00:00" |};
         {| s_session_id := "s2"; s_created_at := "2024-05-02T10:00:00+00:00" |};
         {| s_session_id := "s3"; s_created_at := "2024-05-03T10:00:00+00:00" |} ];
     queries :=
       [ {| q_query_id := "q2"; q_session_id := "s1"; q_user_query := "and then?";
            q_result_json := result [A'; C]; q_messages_json := "[m1, m2]";
            q_created_at := "2024-05-01T10:05:00+00:00" |};
         {| q_query_id := "q3"; q_session_id := "s2"; q_user_query := "other";
            q_result_json := result [B]; q_messages_json := "[n1]";
            q_created_at := "2024-05-02T10:00:00+00:00" |};
         {| q_query_id := "q1"; q_session_id := "s1"; q_user_query := "may they?";
            q_result_json := result [A; B]; q_messages_json := "[m1]";
            q_created_at := "2024-05-01T10:00:00+00:00" |} ] |}.

(** An agent that cites nothing and whose new messages echo the question. *)
Definition agent (query : string) (deps : LegalDeps) (history : option string)
  : outcome (LegalResult * string) :=
  Ok (result [], query).

(** A store in which the collection already exists, with a stale point. *)
Definition stale_store : gmap string (collection (list Q)) :=
  {[ COLLECTION_NAME :=
       {| c_config := {| vp_size := 3; vp_distance := DOT |};
          c_points := {[ 99%Z := ([], {| p_document_id := "old"; p_title := "";
                                        p_section := ""; p_text := "" |}) ]} |} ]}.
End Sample.

(** Further sample data. *)
Module Sample2.
(** An agent that always fails. *)
Definition failing_agent (query : string) (deps : LegalDeps) (history : option string)
  : outcome (LegalResult * string) :=
  Raised (UpstreamError "agent").

(** An agent that cites [A'] and [C]. *)
Definition citing_agent (query : string) (deps : LegalDeps) (history : option string)
  : outcome (LegalResult * string) :=
  Ok (Sample.result [Sample.A'; Sample.C], query).

(** An embedding provider that fails on the third seed document. *)
Definition failing_embedding (text : string) : outcome (list Q) :=
  if contains "If a defect arises" text then Raised (UpstreamError "openai") else Ok [].

(** Hits that carry titles of the seed corpus. *)
Definition seeded_hits (name : string) (query : list Q) (limit : nat)
  : outcome (list (ScoredPoint Q)) :=
  Ok [Sample.hit "BGer 4A_123/2024 — Federal Supreme Court" (9 # 10);
      Sample.hit "OR Art. 271a — Annulment of Termination" (8 # 10);
      Sample.hit "ZH Mietgericht 2024/31 — Zurich Rental Court" (7 # 10)].

End Sample2.

(** ** Vocabulary of the statements *)

(** [needle] occurs in [hay] as a contiguous substring. *)
Definition occurs_in (needle hay : string) : Prop :=
  ∃ before after, hay = before +:+ needle +:+ after.

(** What a lineage response lists for a stored query row: the row's query
    id, question and timestamp, and the answer, confidence, reasoning and
    cited sources of its stored result. *)
Definition entry_of_row (entry : lineage_query) (row : query_row) : Prop :=
  lq_query_id entry = q_query_id row ∧
  lq_user_query entry = q_user_query row ∧
  lq_answer entry = answer (q_result_json row) ∧
  lq_confidence entry = confidence (q_result_json row) ∧
  lq_reasoning entry = reasoning (q_result_json row) ∧
  lq_sources_cited entry = sources_cited (q_result_json row) ∧
  lq_created_at entry = q_created_at row.

(** The citations of a list of query rows, in scan order. *)
Definition citations (rows : list query_row) : list LegalSource :=
  rows ≫= (λ row, sources_cited (q_result_json row)).

(** Position and record of the first citation of [doc_id]. *)
Definition first_citation (doc_id : string) (cs : list LegalSource)
  : option (nat * LegalSource) :=
  list_find (λ c, ls_document_id c = doc_id) cs.

(** The citations whose identifier is neither in [ks] nor cited earlier. *)
Fixpoint first_seen (ks : list string) (cs : list LegalSource) : list LegalSource :=
  match cs with
  | [] => []
  | c :: cs' =>
    if decide (ls_document_id c ∈ ks) then first_seen ks cs'
    else c :: first_seen (ls_document_id c :: ks) cs'
  end.

(** A session with the number of [queries] rows that reference it. *)
Definition with_query_count (db : database) (s : session_row) : session_info :=
  {| si_session_id := s_session_id s;
     si_created_at := s_created_at s;
     si_query_count :=
       length (filter (λ q, q_session_id q = s_session_id s) (queries db)) |}.

(** The foreign key of [queries]: every query belongs to a stored session. *)
Definition foreign_keys (db : database) : Prop :=
  ∀ q, q ∈ queries db → q_session_id q ∈ s_session_id <$> sessions db.

(** The session a request is served under. *)
Definition request_session_id (req : QueryRequest) (fresh_uuid : string) : string :=
  match qr_session_id req with
  | Some s => if String.eqb s "" then fresh_uuid else s
  | None => fresh_uuid
  end.

(** One [POST /query] with its uuid draws and clock reading. *)
Record call := {
  call_req : QueryRequest;
  call_fresh_uuid : string;
  call_query_id : string;
  call_now : string
}.

Section serving.
Context {messages : Type}.
Context (validate_json : string → messages) (dump_json : messages → string).
Context (legal_agent_run :
           string → LegalDeps → option messages → outcome (LegalResult * messages)).

(** The database after serving the calls one after the other, whether they
    succeed or raise. *)
Definition serve (calls : list call) (db : database) : database :=
  foldl (λ db c, (post_query validate_json dump_json legal_agent_run
                    (call_req c) (call_fresh_uuid c) (call_query_id c) (call_now c)
                    db).1)
        db calls.
End serving.

(** Two requests racing to create the session [session_id], absent from
    [db0]: either nothing has been inserted yet and both are still before
    their insert with a negative check in hand, or one of them has inserted
    its row and finished. *)
Definition race_invariant (session_id now1 now2 : string) (db0 : database)
    (st : database * ensure_pc * ensure_pc) : Prop :=
  let '(db, pc1, pc2) := st in
  (db = db0 ∧ (pc1 = AtSelect ∨ pc1 = AtInsert None) ∧
               (pc2 = AtSelect ∨ pc2 = AtInsert None)) ∨
  (∃ row, db = {| sessions := sessions db0 ++ [row]; queries := queries db0 |} ∧
          s_session_id row = session_id ∧
          ((pc1 = Finished (Ok tt) ∧ s_created_at row = now1) ∨
           (pc2 = Finished (Ok tt) ∧ s_created_at row = now2))).

(** A request that has not met a conflict and cannot meet one any more. *)
Definition calm (pc : ensure_pc) : Prop :=
  pc = AtSelect ∨ (∃ row, pc = AtInsert (Some row)) ∨ pc = Finished (Ok tt).

(** * Properties *)

(** ** Strings *)

Lemma string_app_cons (c : ascii) (s t : string) :
  String c s +:+ t = String c (s +:+ t).
Proof. reflexivity. Qed.

Lemma string_app_nil (t : string) : "" +:+ t = t.
Proof. reflexivity. Qed.

Lemma prefix_true_iff (p s : string) :
  String.prefix p s = true ↔ ∃ rest, s = p +:+ rest.
Proof.
  revert s. induction p as [|a p IH]; intros s; simpl.
  - destruct s; split; eauto.
  - destruct s as [|b s]; simpl.
    + split; [done | intros [rest Hrest]; discriminate].
    + setoid_rewrite string_app_cons.
      destruct (ascii_dec a b) as [->|Hab].
      * rewrite IH. split; intros [rest Hrest]; exists rest; congruence.
      * split; [done | intros [rest Hrest]; congruence].
Qed.

Lemma contains_true_iff (needle hay : string) :
  contains needle hay = true ↔ occurs_in needle hay.
Proof.
  unfold occurs_in. induction hay as [|c hay IH]; cbn [contains].
  - rewrite orb_false_r, prefix_true_iff. split.
    + intros [rest Hrest]. exists EmptyString, rest. done.
    + intros [[|b before] [after Hafter]]; [by exists after|discriminate].
  - rewrite orb_true_iff, prefix_true_iff, IH. split.
    + intros [[rest Hrest]|(before & after & Hhay)].
      * exists EmptyString, rest. done.
      * exists (String c before), after. by rewrite string_app_cons, Hhay.
    + intros [[|b before] [after Hafter]].
      * left. by exists after.
      * right. exists before, after. rewrite string_app_cons in Hafter. congruence.
Qed.

Lemma contains_false_iff (needle hay : string) :
  contains needle hay = false ↔ ¬ occurs_in needle hay.
Proof.
  rewrite <- contains_true_iff. destruct (contains needle hay); naive_solver.
Qed.

(** ** Retrieval tool layer *)

Section retrieval_facts.
Context {float vector : Type}.
Context (get_embedding : string → outcome vector).
Context (query_points : string → vector → nat → outcome (list (ScoredPoint float))).

Lemma is_case_law_iff (r : document float) :
  is_case_law r = true ↔
  occurs_in "BGer" (d_title r) ∨ occurs_in "Mietgericht" (d_title r).
Proof. unfold is_case_law. by rewrite orb_true_iff, !contains_true_iff. Qed.

Lemma is_statute_iff (r : document float) :
  is_statute r = true ↔ occurs_in "OR Art" (d_title r).
Proof. unfold is_statute. by rewrite contains_true_iff. Qed.

Lemma filter_sublist {A} (f : A → bool) (l : list A) : List.filter f l `sublist_of` l.
Proof.
  induction l as [|x l IH]; simpl; [constructor|].
  destruct (f x); by constructor.
Qed.

Lemma elem_of_List_filter {A} (f : A → bool) (l : list A) (x : A) :
  x ∈ List.filter f l ↔ x ∈ l ∧ f x = true.
Proof. by rewrite !list_elem_of_In, filter_In. Qed.

Lemma List_filter_none {A} (f : A → bool) (l : list A) :
  (∀ x, x ∈ l → f x = false) → List.filter f l = [].
Proof.
  induction l as [|x l IH]; simpl; intros Hall; [done|].
  rewrite (Hall x) by left. apply IH. intros y Hy. apply Hall. by right.
Qed.

(** C6: case-law search keeps exactly the retrieved results whose title
    contains ["BGer"] or ["Mietgericht"], statute search exactly those whose
    title contains ["OR Art"], both in retrieval order; on the raw results
    [[{title: "BGer 1"}, {title: "OR Art 5"}]] case-law search returns only
    the first and statute search only the second. *)
Theorem search_filters_by_title_marker (query : string) (results : list (document float)) :
  search_documents get_embedding query_points query 3 = Ok results →
  (∃ kept, search_case_law get_embedding query_points query = Ok kept ∧
           kept `sublist_of` results ∧
           ∀ r, r ∈ kept ↔
                r ∈ results ∧
                (occurs_in "BGer" (d_title r) ∨ occurs_in "Mietgericht" (d_title r))) ∧
  (∃ kept, search_statutes get_embedding query_points query = Ok kept ∧
           kept `sublist_of` results ∧
           ∀ r, r ∈ kept ↔ r ∈ results ∧ occurs_in "OR Art" (d_title r)) ∧
  (∀ d1 d2, results = [d1; d2] → d_title d1 = "BGer 1" → d_title d2 = "OR Art 5" →
            search_case_law get_embedding query_points query = Ok [d1] ∧
            search_statutes get_embedding query_points query = Ok [d2]).
Proof.
  intros Hres. unfold search_case_law, search_statutes. rewrite Hres.
  split; [|split].
  - eexists; split; [done|]. split; [apply filter_sublist|].
    intros r. by rewrite elem_of_List_filter, is_case_law_iff.
  - eexists; split; [done|]. split; [apply filter_sublist|].
    intros r. by rewrite elem_of_List_filter, is_statute_iff.
  - intros d1 d2 -> H1 H2. simpl. unfold is_case_law, is_statute.
    by rewrite H1, H2.
Qed.

(** C7: when the title filter removes every retrieved result (in
    particular when nothing was retrieved), case-law search and statute
    search both return the empty list, not an exception. *)
Theorem search_all_filtered_returns_empty (query : string) (results : list (document float)) :
  search_documents get_embedding query_points query 3 = Ok results →
  ((∀ r, r ∈ results → ¬ occurs_in "BGer" (d_title r) ∧
                        ¬ occurs_in "Mietgericht" (d_title r)) →
   search_case_law get_embedding query_points query = Ok []) ∧
  ((∀ r, r ∈ results → ¬ occurs_in "OR Art" (d_title r)) →
   search_statutes get_embedding query_points query = Ok []).
Proof.
  intros Hres. unfold search_case_law, search_statutes. rewrite Hres.
  split; intros Hnone; f_equal; apply List_filter_none; intros r Hr.
  - destruct (Hnone r Hr) as [H1 H2]. unfold is_case_law.
    apply contains_false_iff in H1, H2. by rewrite H1, H2.
  - unfold is_statute. apply contains_false_iff. by apply Hnone.
Qed.
End retrieval_facts.

(** ** [ORDER BY] *)

Section order_by_facts.
Context {A : Type} (le : A → A → bool).

Lemma sorted_insert_perm (x : A) (l : list A) : sorted_insert le x l ≡ₚ x :: l.
Proof.
  induction l as [|y l IH]; simpl; [done|].
  destruct (le x y); [done|]. rewrite IH. apply Permutation_swap.
Qed.

Lemma order_by_perm (l : list A) : order_by le l ≡ₚ l.
Proof.
  induction l as [|x l IH]; simpl; [done|].
  rewrite sorted_insert_perm. by f_equiv.
Qed.

Lemma order_by_nil_inv (l : list A) : order_by le l = [] → l = [].
Proof. intros H. apply Permutation_nil_r. by rewrite <- H, order_by_perm. Qed.

Lemma sorted_insert_snoc (x y : A) (l : list A) :
  le x y = true → sorted_insert le x (l ++ [y]) = sorted_insert le x l ++ [y].
Proof.
  intros Hxy. induction l as [|z l IH]; simpl.
  - by rewrite Hxy.
  - destruct (le x z); [done|]. by rewrite IH.
Qed.

(** A row appended to the table with a key not below any other comes last. *)
Lemma order_by_snoc (l : list A) (y : A) :
  (∀ x, x ∈ l → le x y = true) → order_by le (l ++ [y]) = order_by le l ++ [y].
Proof.
  induction l as [|x l IH]; simpl; intros Hle; [done|].
  rewrite IH by (intros z Hz; apply Hle; by right).
  apply sorted_insert_snoc, Hle. by left.
Qed.

Context (le_total : ∀ x y, le x y = false → le y x = true).
Context (le_trans : ∀ x y z, le x y = true → le y z = true → le x z = true).

Lemma sorted_insert_sorted (x : A) (l : list A) :
  StronglySorted (λ a b, le a b = true) l →
  StronglySorted (λ a b, le a b = true) (sorted_insert le x l).
Proof.
  induction 1 as [|y l Hsorted IH Hy]; simpl.
  - repeat constructor.
  - destruct (le x y) eqn:Hxy.
    + constructor; [by constructor|]. constructor; [done|].
      eapply Forall_impl; [exact Hy|]. intros z Hz. by eapply le_trans.
    + constructor; [done|]. rewrite sorted_insert_perm.
      constructor; [by apply le_total | done].
Qed.

Lemma order_by_sorted (l : list A) :
  StronglySorted (λ a b, le a b = true) (order_by le l).
Proof.
  induction l as [|x l IH]; simpl; [constructor|].
  by apply sorted_insert_sorted.
Qed.
End order_by_facts.

Lemma StronglySorted_mono {A} (R1 R2 : relation A) (l : list A) :
  (∀ a b, R1 a b → R2 a b) → StronglySorted R1 l → StronglySorted R2 l.
Proof.
  intros Himpl. induction 1 as [|x l Hsorted IH Hx]; constructor; [done|].
  eapply Forall_impl; [exact Hx|]. intros y. apply Himpl.
Qed.

Lemma StronglySorted_last {A} (R : relation A) (l : list A) (x y : A) :
  StronglySorted R l → last l = Some y → x ∈ l → x = y ∨ R x y.
Proof.
  induction 1 as [|z l Hsorted IH Hz]; [done|].
  intros Hlast Hx. destruct l as [|z' l].
  - simpl in Hlast. apply list_elem_of_singleton in Hx. left. congruence.
  - rewrite last_cons_cons in Hlast.
    apply elem_of_cons in Hx as [->|Hx]; [|by apply IH].
    right. rewrite Forall_forall in Hz. apply Hz.
    apply last_Some in Hlast as [l' ->]. set_solver.
Qed.

Lemma string_leb_false (s t : string) : String.leb s t = false → String.leb t s = true.
Proof. destruct (String.leb_total s t) as [?|?]; congruence. Qed.

Lemma string_leb_trans (s t u : string) :
  String.leb s t = true → String.leb t u = true → String.leb s u = true.
Proof.
  intros H1 H2. apply Is_true_true. apply Is_true_true in H1, H2.
  change (String.le s u). by trans t.
Qed.

Lemma string_ltb_leb (s t : string) : String.ltb s t = true → String.leb s t = true.
Proof. unfold String.ltb, String.leb. by destruct (String.compare s t). Qed.

(** ** Session store *)

Ltac unfold_M :=
  unfold mbind, mret, M_bind, M_ret, gets, modify, lift in *.

Lemma eqb_decide (s t : string) : String.eqb s t = bool_decide (s = t).
Proof.
  destruct (String.eqb_spec s t); symmetry;
    [by apply bool_decide_eq_true_2 | by apply bool_decide_eq_false_2].
Qed.

Lemma List_filter_decide {A} (f : A → bool) (P : A → Prop) `{∀ x, Decision (P x)}
    (l : list A) :
  (∀ x, f x = bool_decide (P x)) → List.filter f l = filter P l.
Proof.
  intros Hf. induction l as [|x l IH]; simpl; [done|].
  rewrite filter_cons, Hf, IH.
  destruct (decide (P x)); [by rewrite bool_decide_eq_true_2
                           |by rewrite bool_decide_eq_false_2].
Qed.

Lemma filter_none {A} (P : A → Prop) `{∀ x, Decision (P x)} (l : list A) :
  (∀ x, x ∈ l → ¬ P x) → filter P l = [].
Proof.
  induction l as [|x l IH]; intros Hall; [done|].
  rewrite filter_cons_False by (apply Hall; by left).
  apply IH. intros y Hy. apply Hall. by right.
Qed.

Lemma select_session_None (db : database) (session_id : string) :
  select_session db session_id = None ↔
  session_id ∉ s_session_id <$> sessions db.
Proof.
  unfold select_session. induction (sessions db) as [|s l IH]; simpl.
  - split; [set_solver|done].
  - rewrite eqb_decide. rewrite not_elem_of_cons, <- IH. case_bool_decide; naive_solver.
Qed.

Lemma select_session_Some (db : database) (session_id : string) (row : session_row) :
  select_session db session_id = Some row →
  row ∈ sessions db ∧ s_session_id row = session_id.
Proof.
  unfold select_session. intros [Hin Heq]%find_some.
  by rewrite list_elem_of_In, String.eqb_eq in *.
Qed.

Lemma existsb_select_session (db : database) (session_id : string) :
  existsb (λ s, String.eqb (s_session_id s) session_id) (sessions db) =
  if select_session db session_id is Some _ then true else false.
Proof.
  unfold select_session. induction (sessions db) as [|s l IH]; simpl; [done|].
  by destruct (String.eqb (s_session_id s) session_id).
Qed.

Lemma insert_session_absent (session_id now : string) (db : database) :
  select_session db session_id = None →
  insert_session session_id now db =
  ({| sessions := sessions db ++ [ {| s_session_id := session_id; s_created_at := now |} ];
      queries := queries db |}, Ok tt).
Proof. intros H. unfold insert_session. by rewrite existsb_select_session, H. Qed.

Lemma insert_session_present (session_id now : string) (db : database) (row : session_row) :
  select_session db session_id = Some row →
  insert_session session_id now db =
  (db, Raised (IntegrityError "UNIQUE constraint failed: sessions.session_id")).
Proof. intros H. unfold insert_session. by rewrite existsb_select_session, H. Qed.

Lemma ensure_session_eq (session_id now : string) (db : database) :
  ensure_session session_id now db =
  match select_session db session_id with
  | Some _ => (db, Ok tt)
  | None => insert_session session_id now db
  end.
Proof. unfold ensure_session. unfold_M. by destruct (select_session db session_id). Qed.

Lemma select_session_app_new (db : database) (session_id now : string) :
  select_session db session_id = None →
  select_session
    {| sessions := sessions db ++ [ {| s_session_id := session_id; s_created_at := now |} ];
       queries := queries db |} session_id
  = Some {| s_session_id := session_id; s_created_at := now |}.
Proof.
  unfold select_session. simpl. induction (sessions db) as [|s l IH]; simpl.
  - by rewrite String.eqb_refl.
  - destruct (String.eqb (s_session_id s) session_id); [done|apply IH].
Qed.

(** Under the primary key a present id has exactly one row. *)
Lemma one_row_per_session (l : list session_row) (session_id : string) :
  NoDup (s_session_id <$> l) → session_id ∈ s_session_id <$> l →
  length (filter (λ s, s_session_id s = session_id) l) = 1.
Proof.
  induction l as [|s l IH]; simpl; intros Hnodup Hin; [set_solver|].
  apply NoDup_cons in Hnodup as [Hs Hnodup]. rewrite filter_cons.
  destruct (decide (s_session_id s = session_id)) as [<-|Hne]; simpl.
  - f_equal. apply length_zero_iff_nil, filter_none.
    intros x Hx Hid. apply Hs. rewrite <- Hid. by apply list_elem_of_fmap_2.
  - apply IH; [done|]. set_solver.
Qed.

(** C3: under the primary key of [sessions], ensuring a session twice
    succeeds both times, the second time without any change; afterwards
    exactly one row has that id. The first time inserts the row
    [(session_id, now)] only if the id is absent and changes nothing
    otherwise, so an existing row keeps its creation timestamp. *)
Theorem ensure_session_idempotent (session_id now1 now2 : string) (db : database) :
  primary_keys db →
  ∃ db1,
    ensure_session session_id now1 db = (db1, Ok tt) ∧
    ensure_session session_id now2 db1 = (db1, Ok tt) ∧
    length (filter (λ s, s_session_id s = session_id) (sessions db1)) = 1 ∧
    primary_keys db1 ∧
    match select_session db session_id with
    | Some row => db1 = db ∧ select_session db1 session_id = Some row
    | None => db1 = {| sessions := sessions db ++
                                   [ {| s_session_id := session_id;
                                        s_created_at := now1 |} ];
                       queries := queries db |}
    end.
Proof.
  intros [Hsessions Hqueries]. rewrite ensure_session_eq.
  destruct (select_session db session_id) as [row|] eqn:Hsel.
  - exists db. rewrite ensure_session_eq, Hsel. repeat split; try done.
    apply one_row_per_session; [done|].
    apply select_session_Some in Hsel as [Hin <-]. by apply list_elem_of_fmap_2.
  - rewrite insert_session_absent by done. eexists. split; [done|].
    rewrite ensure_session_eq, select_session_app_new by done.
    apply select_session_None in Hsel. repeat split; simpl; try done.
    + rewrite filter_app, filter_cons_True, filter_nil by done.
      rewrite length_app. simpl.
      assert (filter (λ s, s_session_id s = session_id) (sessions db) = []) as ->; [|done].
      apply filter_none. intros x Hx Hid. apply Hsel.
      rewrite <- Hid. by apply list_elem_of_fmap_2.
    + rewrite fmap_app. apply NoDup_app. split; [done|]. split.
      * by intros x Hx ->%list_elem_of_singleton.
      * apply NoDup_singleton.
Qed.

(** *** The primary keys are an invariant *)

Lemma empty_database_primary_keys : primary_keys empty_database.
Proof. split; constructor. Qed.

Lemma insert_session_primary_keys (session_id now : string) (db : database) :
  primary_keys db → primary_keys (insert_session session_id now db).1.
Proof.
  intros [Hsessions Hqueries]. unfold insert_session.
  rewrite existsb_select_session.
  destruct (select_session db session_id) as [row|] eqn:Hsel; [done|].
  apply select_session_None in Hsel. split; simpl; [|done].
  rewrite fmap_app. apply NoDup_app. split; [done|]. split.
  - by intros x Hx ->%list_elem_of_singleton.
  - apply NoDup_singleton.
Qed.

Lemma ensure_session_primary_keys (session_id now : string) (db : database) :
  primary_keys db → primary_keys (ensure_session session_id now db).1.
Proof.
  intros Hkeys. rewrite ensure_session_eq.
  destruct (select_session db session_id); [done|].
  by apply insert_session_primary_keys.
Qed.

Lemma existsb_query_id (db : database) (query_id : string) :
  existsb (λ q, String.eqb (q_query_id q) query_id) (queries db) = false →
  query_id ∉ q_query_id <$> queries db.
Proof.
  induction (queries db) as [|q l IH]; simpl; [by intros _ ?%not_elem_of_nil|].
  rewrite orb_false_iff, String.eqb_neq, not_elem_of_cons. naive_solver.
Qed.

Lemma insert_query_primary_keys (row : query_row) (db : database) :
  primary_keys db → primary_keys (insert_query row db).1.
Proof.
  intros [Hsessions Hqueries]. unfold insert_query.
  destruct (existsb _ _) eqn:Hex; [done|].
  apply existsb_query_id in Hex. split; simpl; [done|].
  rewrite fmap_app. apply NoDup_app. split; [done|]. split.
  - by intros x Hx ->%list_elem_of_singleton.
  - apply NoDup_singleton.
Qed.

(** *** The check and the insert as separate statements *)

(** Run back to back, the two statements are [ensure_session]. *)
Lemma ensure_step_sequential (session_id now : string) (db : database) :
  ensure_step session_id now (ensure_step session_id now AtSelect db).2
                             (ensure_step session_id now AtSelect db).1
  = ((ensure_session session_id now db).1,
     Finished (ensure_session session_id now db).2).
Proof.
  rewrite ensure_session_eq. simpl.
  destruct (select_session db session_id); [done|].
  by destruct (insert_session session_id now db).
Qed.

Lemma select_session_snoc (db : database) (new : session_row) (key : string)
    (row : session_row) :
  select_session db key = Some row →
  select_session {| sessions := sessions db ++ [new]; queries := queries db |} key
  = Some row.
Proof.
  unfold select_session. simpl. induction (sessions db) as [|s l IH]; simpl; [done|].
  by destruct (String.eqb (s_session_id s) key).
Qed.

Lemma insert_session_keeps_row (session_id now key : string) (db : database)
    (row : session_row) :
  select_session db key = Some row →
  select_session (insert_session session_id now db).1 key = Some row.
Proof.
  intros Hrow. unfold insert_session.
  destruct (existsb _ _); simpl; [done|]. by apply select_session_snoc.
Qed.

Lemma ensure_step_keeps_row (session_id now key : string) (pc : ensure_pc)
    (db : database) (row : session_row) :
  select_session db key = Some row →
  select_session (ensure_step session_id now pc db).1 key = Some row.
Proof.
  intros Hrow. destruct pc as [|[existing|]|r]; simpl; try done.
  pose proof (insert_session_keeps_row session_id now key db row Hrow).
  by destruct (insert_session session_id now db).
Qed.

Lemma run_ensure_pair_keeps_row (session_id now1 now2 key : string)
    (schedule : list bool) (db : database) (pc1 pc2 : ensure_pc) (row : session_row) :
  select_session db key = Some row →
  select_session (run_ensure_pair session_id now1 now2 schedule db pc1 pc2).1.1 key
  = Some row.
Proof.
  revert db pc1 pc2. induction schedule as [|[] schedule IH]; intros db pc1 pc2 Hrow.
  - done.
  - simpl. pose proof (ensure_step_keeps_row session_id now2 key pc2 db row Hrow).
    destruct (ensure_step session_id now2 pc2 db). by apply IH.
  - simpl. pose proof (ensure_step_keeps_row session_id now1 key pc1 db row Hrow).
    destruct (ensure_step session_id now1 pc1 db). by apply IH.
Qed.

(** C4, as the code has it: the insert is guarded by a check, not made
    ignorable. With the id present at the check nothing is inserted, nothing
    is raised and the row is unaltered. The [INSERT] itself, run on an id
    that is present, raises the duplicate-key error; it alters nothing, and
    no interleaving of two requests' statements alters the stored row. *)
Theorem session_insert_guarded_by_check (session_id now : string) (db : database)
    (row : session_row) :
  select_session db session_id = Some row →
  ensure_session session_id now db = (db, Ok tt) ∧
  insert_session session_id now db =
    (db, Raised (IntegrityError "UNIQUE constraint failed: sessions.session_id")) ∧
  ∀ now1 now2 schedule pc1 pc2,
    select_session
      (run_ensure_pair session_id now1 now2 schedule db pc1 pc2).1.1 session_id
    = Some row.
Proof.
  intros Hrow. rewrite ensure_session_eq, Hrow. split; [done|]. split.
  - by eapply insert_session_present.
  - intros. by apply run_ensure_pair_keeps_row.
Qed.

(** C4, as stated, fails: two first queries for the new session ["s"] both
    pass the check before either inserts; the second insert raises. *)
Lemma session_insert_race_raises :
  run_ensure_pair "s" "2024-01-01T00:00:00+00:00" "2024-01-01T00:00:01+00:00"
                  [false; true; false; true] empty_database AtSelect AtSelect
  = ({| sessions := [ {| s_session_id := "s";
                         s_created_at := "2024-01-01T00:00:00+00:00" |} ];
        queries := [] |},
     Finished (Ok tt),
     Finished (Raised (IntegrityError "UNIQUE constraint failed: sessions.session_id"))).
Proof. reflexivity. Qed.

(** ** History continuity *)

Lemma select_queries_filter (db : database) (session_id : string) :
  select_queries db session_id =
  order_by created_at_le (filter (λ q, q_session_id q = session_id) (queries db)).
Proof.
  unfold select_queries. f_equal. apply List_filter_decide.
  intros q. apply eqb_decide.
Qed.

Lemma select_queries_perm (db : database) (session_id : string) :
  select_queries db session_id ≡ₚ
  filter (λ q, q_session_id q = session_id) (queries db).
Proof. rewrite select_queries_filter. apply order_by_perm. Qed.

Lemma elem_of_select_queries (db : database) (session_id : string) (q : query_row) :
  q ∈ select_queries db session_id ↔ q ∈ queries db ∧ q_session_id q = session_id.
Proof. by rewrite select_queries_perm, list_elem_of_filter, (comm (∧)). Qed.

Lemma select_queries_sorted (db : database) (session_id : string) :
  StronglySorted (λ a b, String.le (q_created_at a) (q_created_at b))
                 (select_queries db session_id).
Proof.
  eapply StronglySorted_mono;
    [|apply (order_by_sorted created_at_le)].
  - intros a b Hab. unfold created_at_le in Hab. unfold String.le. by rewrite Hab.
  - intros a b. apply string_leb_false.
  - intros a b c. apply string_leb_trans.
Qed.

Lemma select_queries_nil (db : database) (session_id : string) :
  select_queries db session_id = [] ↔
  ∀ q, q ∈ queries db → q_session_id q ≠ session_id.
Proof.
  split.
  - intros Hnil q Hq Hid.
    assert (q ∈ select_queries db session_id) as Hin by by apply elem_of_select_queries.
    rewrite Hnil in Hin. by apply not_elem_of_nil in Hin.
  - intros Hnone. rewrite select_queries_filter, filter_none; [done|].
    intros q Hq. by apply Hnone.
Qed.

Lemma ensure_session_Ok (session_id now : string) (db : database) :
  ∃ db1, ensure_session session_id now db = (db1, Ok tt) ∧
         queries db1 = queries db ∧
         is_Some (select_session db1 session_id).
Proof.
  rewrite ensure_session_eq.
  destruct (select_session db session_id) as [row|] eqn:Hsel.
  - exists db. by rewrite Hsel.
  - rewrite insert_session_absent by done. eexists. split; [done|].
    split; [done|]. by rewrite select_session_app_new.
Qed.

Lemma load_last_history_eq (session_id : string) (db : database) :
  load_last_history session_id db =
  (db, Ok (last (q_messages_json <$> select_queries db session_id))).
Proof. done. Qed.

Lemma insert_query_Ok (row : query_row) (db db' : database) :
  insert_query row db = (db', Ok tt) →
  db' = {| sessions := sessions db; queries := queries db ++ [row] |}.
Proof. unfold insert_query. destruct (existsb _ _); congruence. Qed.

Section agent_facts.
Context {messages : Type}.
Context (validate_json : string → messages) (dump_json : messages → string).
Context (legal_agent_run :
           string → LegalDeps → option messages → outcome (LegalResult * messages)).

(** What a successful [post_query] did. *)
Lemma post_query_Ok (req : QueryRequest) (fresh_uuid query_id now : string)
    (db db' : database) (resp : query_response) :
  post_query validate_json dump_json legal_agent_run req fresh_uuid query_id now db
  = (db', Ok resp) →
  ∃ db1 result,
    ensure_session (resp_session_id resp) now db = (db1, Ok tt) ∧
    legal_agent_run (qr_query req)
      {| deps_session_id := resp_session_id resp; deps_user_query := qr_query req |}
      (validate_json <$>
         last (q_messages_json <$> select_queries db1 (resp_session_id resp)))
    = Ok result ∧
    db' = {| sessions := sessions db1;
             queries := queries db1 ++
               [ {| q_query_id := query_id;
                    q_session_id := resp_session_id resp;
                    q_user_query := qr_query req;
                    q_result_json := result.1;
                    q_messages_json := dump_json result.2;
                    q_created_at := now |} ] |} ∧
    resp_query_id resp = query_id ∧
    resp_result resp = result.1.
Proof.
  unfold post_query.
  set (session_id := match qr_session_id req with
                     | Some s => if String.eqb s "" then fresh_uuid else s
                     | None => fresh_uuid
                     end).
  destruct (ensure_session_Ok session_id now db) as (db1 & Hens & Hq & Hsel).
  unfold mbind at 1, M_bind at 1. rewrite Hens.
  unfold mbind at 1, M_bind at 1. rewrite load_last_history_eq.
  unfold mbind at 1, M_bind at 1. unfold lift.
  destruct (legal_agent_run _ _ _) as [result|e] eqn:Hrun; [|done].
  unfold mbind, M_bind, mret, M_ret.
  destruct (insert_query _ db1) as [db2 [[]|e]] eqn:Hins; [|done].
  intros [= <- <-]. simpl. apply insert_query_Ok in Hins.
  exists db1, result. by rewrite Hens, Hrun.
Qed.

Lemma post_query_primary_keys (req : QueryRequest) (fresh_uuid query_id now : string)
    (db : database) :
  primary_keys db →
  primary_keys
    (post_query validate_json dump_json legal_agent_run req fresh_uuid query_id now db).1.
Proof.
  intros Hkeys. unfold post_query.
  set (session_id := match qr_session_id req with
                     | Some s => if String.eqb s "" then fresh_uuid else s
                     | None => fresh_uuid
                     end).
  pose proof (ensure_session_primary_keys session_id now db Hkeys) as Hkeys1.
  unfold mbind at 1, M_bind at 1.
  destruct (ensure_session session_id now db) as [db1 [[]|e]]; [|done].
  unfold mbind at 1, M_bind at 1. rewrite load_last_history_eq.
  unfold mbind at 1, M_bind at 1. unfold lift.
  destruct (legal_agent_run _ _ _) as [result|e]; [|done].
  unfold mbind, M_bind, mret, M_ret.
  match goal with |- context [insert_query ?row db1] =>
    pose proof (insert_query_primary_keys row db1 Hkeys1) as Hkeys2;
    destruct (insert_query row db1) as [db2 [[]|e]]; done
  end.
Qed.

(** C2, as the code has it: the history loaded for a session is the
    [messages_json] of a row of that session whose [created_at] is not below
    that of any other row of the session, and [None] exactly when the
    session has no row. A query
    whose timestamp is above those of the session's earlier rows persists the
    blob that the next query on the session loads and hands, parsed, to the
    agent. *)
Theorem history_is_latest_persisted_blob (db : database) (session_id : string) :
  (∃ history,
     load_last_history session_id db = (db, Ok history) ∧
     (history = None ↔ ∀ q, q ∈ queries db → q_session_id q ≠ session_id) ∧
     (∀ blob, history = Some blob →
        ∃ row, row ∈ queries db ∧ q_session_id row = session_id ∧
               q_messages_json row = blob ∧
               ∀ q, q ∈ queries db → q_session_id q = session_id →
                    String.le (q_created_at q) (q_created_at row))) ∧
  (∀ req fresh_uuid query_id now db' resp,
     post_query validate_json dump_json legal_agent_run req fresh_uuid query_id now db
     = (db', Ok resp) →
     resp_session_id resp = session_id →
     (∀ q, q ∈ queries db → q_session_id q = session_id →
           String.ltb (q_created_at q) now = true) →
     ∃ row,
       queries db' = queries db ++ [row] ∧
       q_query_id row = query_id ∧ q_session_id row = session_id ∧
       q_created_at row = now ∧
       load_last_history session_id db' = (db', Ok (Some (q_messages_json row))) ∧
       ∀ req2 fresh_uuid2 query_id2 now2 db'' resp2,
         post_query validate_json dump_json legal_agent_run
                    req2 fresh_uuid2 query_id2 now2 db' = (db'', Ok resp2) →
         resp_session_id resp2 = session_id →
         ∃ result2,
           legal_agent_run (qr_query req2)
             {| deps_session_id := session_id; deps_user_query := qr_query req2 |}
             (Some (validate_json (q_messages_json row))) = Ok result2 ∧
           resp_result resp2 = result2.1).
Proof.
  split.
  - eexists. split; [apply load_last_history_eq|]. split.
    + by rewrite <- select_queries_nil, fmap_last, fmap_None, last_None.
    + intros blob Hlast. rewrite fmap_last in Hlast.
      destruct (last (select_queries db session_id)) as [row|] eqn:Hrow; [|done].
      injection Hlast as <-. exists row.
      assert (row ∈ select_queries db session_id) as Hin.
      { apply last_Some in Hrow as [l ->]. set_solver. }
      apply elem_of_select_queries in Hin as [Hin Hid].
      repeat split; try done. intros q Hq Hqid.
      destruct (StronglySorted_last _ _ q row (select_queries_sorted db session_id) Hrow)
        as [->|Hle]; [by apply elem_of_select_queries| |done].
      reflexivity.
  - intros req fresh_uuid query_id now db' resp Hpost Hsid Hlater.
    apply post_query_Ok in Hpost as (db1 & result & Hens & _ & -> & Hqid & _).
    rewrite Hsid in *.
    destruct (ensure_session_Ok session_id now db) as (db1' & Hens' & Hq & Hsel).
    rewrite Hens in Hens'. injection Hens' as <-.
    eexists. rewrite Hq. do 4 (split; [done|]). simpl.
    assert (∀ d, queries d = queries db ++
              [ {| q_query_id := query_id; q_session_id := session_id;
                   q_user_query := qr_query req; q_result_json := result.1;
                   q_messages_json := dump_json result.2; q_created_at := now |} ] →
            load_last_history session_id d = (d, Ok (Some (dump_json result.2)))) as Hload.
    { intros d Hd. rewrite load_last_history_eq, select_queries_filter, Hd.
      rewrite filter_app, filter_cons_True, filter_nil by done.
      rewrite order_by_snoc, fmap_last, last_snoc; [done|].
      intros q [Hq' Hqs]%list_elem_of_filter. apply string_ltb_leb. by apply Hlater. }
    split; [by apply Hload|].
    intros req2 fresh_uuid2 query_id2 now2 db'' resp2 Hpost2 Hsid2.
    apply post_query_Ok in Hpost2 as (db2 & result2 & Hens2 & Hrun2 & _ & _ & Hres2).
    rewrite Hsid2 in *. exists result2. split; [|done].
    rewrite ensure_session_eq in Hens2.
    set (d := {| sessions := sessions db1; queries := _ |}) in *.
    assert (select_session d session_id = select_session db1 session_id) as Hd by done.
    destruct Hsel as [row Hrow]. rewrite Hd, Hrow in Hens2. injection Hens2 as <-.
    specialize (Hload d eq_refl). rewrite load_last_history_eq in Hload.
    injection Hload as Hload. by rewrite Hload in Hrun2.
Qed.
End agent_facts.

(** ** Lineage *)

Lemma first_citation_cons_eq (c : LegalSource) (cs : list LegalSource) :
  first_citation (ls_document_id c) (c :: cs) = Some (0, c).
Proof. unfold first_citation. simpl. by rewrite decide_True. Qed.

Lemma first_citation_cons_ne (k : string) (c : LegalSource) (cs : list LegalSource) :
  ls_document_id c ≠ k →
  first_citation k (c :: cs) = prod_map S id <$> first_citation k cs.
Proof. intros Hne. unfold first_citation. simpl. by rewrite decide_False. Qed.

Lemma first_citation_cons_ne_Some (k : string) (c x : LegalSource)
    (cs : list LegalSource) (i : nat) :
  ls_document_id c ≠ k →
  first_citation k (c :: cs) = Some (i, x) ↔
  ∃ i', i = S i' ∧ first_citation k cs = Some (i', x).
Proof.
  intros Hne. rewrite first_citation_cons_ne by done.
  destruct (first_citation k cs) as [[i' y]|]; simpl; naive_solver.
Qed.

Lemma first_seen_equiv (ks1 ks2 : list string) (cs : list LegalSource) :
  (∀ k, k ∈ ks1 ↔ k ∈ ks2) → first_seen ks1 cs = first_seen ks2 cs.
Proof.
  revert ks1 ks2. induction cs as [|c cs IH]; intros ks1 ks2 Hks; simpl; [done|].
  destruct (decide (ls_document_id c ∈ ks1)) as [Hin|Hin];
    rewrite Hks in Hin; [rewrite decide_True by done|rewrite decide_False by done].
  - by apply IH.
  - f_equal. apply IH. intros k. by rewrite !elem_of_cons, Hks.
Qed.

(** A source is kept exactly when it is the first citation of its
    identifier and that identifier was not seen before. *)
Lemma elem_of_first_seen (ks : list string) (cs : list LegalSource) (x : LegalSource) :
  x ∈ first_seen ks cs ↔
  (ls_document_id x ∉ ks) ∧ ∃ i, first_citation (ls_document_id x) cs = Some (i, x).
Proof.
  revert ks. induction cs as [|c cs IH]; intros ks; cbn [first_seen].
  - split; [by intros ?%not_elem_of_nil|]. by intros [_ [i ?]].
  - destruct (decide (ls_document_id c ∈ ks)) as [Hin|Hin].
    + rewrite IH. split; intros [Hx [i Hi]]; (split; [done|]).
      * exists (S i). apply first_citation_cons_ne_Some; [congruence|eauto].
      * apply first_citation_cons_ne_Some in Hi as (i' & -> & Hi); [eauto|congruence].
    + rewrite elem_of_cons, IH, not_elem_of_cons.
      destruct (decide (ls_document_id c = ls_document_id x)) as [Heq|Hne].
      * split.
        -- intros [->|[[Hne _] _]]; [|congruence]. split; [done|].
           exists 0. apply first_citation_cons_eq.
        -- intros [_ [i Hi]]. left.
           rewrite <- Heq, first_citation_cons_eq in Hi. congruence.
      * split.
        -- intros [->|[[_ Hx] [i Hi]]]; [done|]. split; [done|].
           exists (S i). apply first_citation_cons_ne_Some; eauto.
        -- intros [Hx [i Hi]]. right.
           apply first_citation_cons_ne_Some in Hi as (i' & -> & Hi); eauto.
Qed.

Lemma first_seen_NoDup (ks : list string) (cs : list LegalSource) :
  NoDup (ls_document_id <$> first_seen ks cs).
Proof.
  revert ks. induction cs as [|c cs IH]; intros ks; simpl; [constructor|].
  destruct (decide (ls_document_id c ∈ ks)); [done|].
  rewrite fmap_cons. constructor; [|done].
  intros (x & Hid & [Hx _]%elem_of_first_seen)%list_elem_of_fmap.
  apply Hx. rewrite Hid. by left.
Qed.

(** Kept sources appear in the order of their first citations. *)
Lemma first_seen_order (ks : list string) (cs : list LegalSource)
    (i j : nat) (a b : LegalSource) :
  first_seen ks cs !! i = Some a → first_seen ks cs !! j = Some b → i < j →
  ∃ fa fb, first_citation (ls_document_id a) cs = Some (fa, a) ∧
           first_citation (ls_document_id b) cs = Some (fb, b) ∧ fa < fb.
Proof.
  revert ks i j. induction cs as [|c cs IH]; intros ks i j; cbn [first_seen]; [done|].
  destruct (decide (ls_document_id c ∈ ks)) as [Hin|Hin].
  - intros Ha Hb Hij.
    destruct (IH ks i j Ha Hb Hij) as (fa & fb & Hfa & Hfb & Hlt).
    apply list_elem_of_lookup_2, elem_of_first_seen in Ha as [Ha _].
    apply list_elem_of_lookup_2, elem_of_first_seen in Hb as [Hb _].
    exists (S fa), (S fb). split; [|split; [|lia]].
    + apply first_citation_cons_ne_Some; [congruence|eauto].
    + apply first_citation_cons_ne_Some; [congruence|eauto].
  - destruct j as [|j]; [lia|]. intros Ha Hb Hij. simpl in Hb.
    pose proof Hb as Hb'.
    apply list_elem_of_lookup_2, elem_of_first_seen in Hb' as [Hbk [fb Hfb]].
    apply not_elem_of_cons in Hbk as [Hbc _].
    destruct i as [|i]; simpl in Ha.
    + injection Ha as <-. exists 0, (S fb).
      split; [apply first_citation_cons_eq|]. split; [|lia].
      apply first_citation_cons_ne_Some; eauto.
    + destruct (IH _ i j Ha Hb ltac:(lia)) as (fa & fb' & Hfa & Hfb' & Hlt).
      apply list_elem_of_lookup_2, elem_of_first_seen in Ha as [Hak _].
      apply not_elem_of_cons in Hak as [Hac _].
      exists (S fa), (S fb'). split; [|split; [|lia]].
      * apply first_citation_cons_ne_Some; eauto.
      * apply first_citation_cons_ne_Some; eauto.
Qed.

Lemma dict_contains_decide (seen : seen_dict) (doc_id : string) :
  dict_contains seen doc_id = bool_decide (doc_id ∈ seen.*1).
Proof.
  unfold dict_contains. induction seen as [|[k s] seen IH]; simpl; [done|].
  rewrite IH, eqb_decide.
  repeat case_bool_decide; set_solver.
Qed.

(** The loop over the citations, in closed form. *)
Lemma foldl_see_source (seen : seen_dict) (cs : list LegalSource) :
  foldl see_source seen cs =
  seen ++ ((λ c, (ls_document_id c, c)) <$> first_seen seen.*1 cs).
Proof.
  revert seen. induction cs as [|c cs IH]; intros seen; simpl.
  - by rewrite app_nil_r.
  - unfold see_source at 2. rewrite dict_contains_decide.
    destruct (decide (ls_document_id c ∈ seen.*1)) as [Hin|Hin].
    + rewrite bool_decide_eq_true_2 by done. apply IH.
    + rewrite bool_decide_eq_false_2 by done. rewrite IH, <- app_assoc. simpl.
      do 3 f_equal. apply first_seen_equiv. intros k.
      rewrite fmap_app. set_solver.
Qed.

Lemma foldl_lineage_row (acc : list lineage_query * seen_dict) (rows : list query_row) :
  foldl lineage_row acc rows =
  (acc.1 ++ (lineage_entry <$> rows), foldl see_source acc.2 (citations rows)).
Proof.
  revert acc. induction rows as [|row rows IH]; intros acc; simpl.
  - by rewrite app_nil_r; destruct acc.
  - rewrite IH. simpl. unfold citations. simpl.
    by rewrite <- app_assoc, foldl_app.
Qed.

(** [get_lineage] in closed form; the early return for no rows agrees with
    what the loop would produce. *)
Lemma get_lineage_eq (session_id : string) (db : database) :
  get_lineage session_id db =
  let rows := select_queries db session_id in
  (db, Ok {| l_session_id := session_id;
             total_queries := length rows;
             unique_sources := length (first_seen [] (citations rows));
             l_queries := lineage_entry <$> rows;
             all_sources := first_seen [] (citations rows) |}).
Proof.
  unfold get_lineage. unfold_M. simpl.
  destruct (select_queries db session_id) as [|row rows] eqn:Hrows; [done|].
  rewrite foldl_lineage_row, foldl_see_source. simpl.
  rewrite !length_fmap, <- list_fmap_compose. simpl.
  by rewrite list_fmap_id.
Qed.

Lemma first_citation_Some_elem (k : string) (cs : list LegalSource) (i : nat)
    (x : LegalSource) :
  first_citation k cs = Some (i, x) → x ∈ cs ∧ ls_document_id x = k.
Proof.
  unfold first_citation. intros (Hi & Hk & _)%list_find_Some.
  split; [by eapply list_elem_of_lookup_2|done].
Qed.

(** The kept identifiers are the cited identifiers. *)
Lemma first_seen_ids (cs : list LegalSource) (k : string) :
  k ∈ ls_document_id <$> first_seen [] cs ↔ k ∈ ls_document_id <$> cs.
Proof.
  rewrite !list_elem_of_fmap. split.
  - intros (x & -> & [_ [i Hi]]%elem_of_first_seen).
    apply first_citation_Some_elem in Hi as [Hx _]. eauto.
  - intros (c & -> & Hc).
    destruct (list_find_elem_of (λ x, ls_document_id x = ls_document_id c) cs c Hc eq_refl)
      as [[i x] Hfind].
    pose proof (first_citation_Some_elem _ _ _ _ Hfind) as [_ Hid].
    exists x. split; [done|]. apply elem_of_first_seen.
    split; [apply not_elem_of_nil|]. exists i. by rewrite Hid.
Qed.

Lemma first_seen_length (cs : list LegalSource) :
  length (first_seen [] cs) = size (list_to_set (ls_document_id <$> cs) : gset string).
Proof.
  rewrite <- (length_fmap ls_document_id).
  rewrite <- (size_list_to_set (C := gset string)) by apply first_seen_NoDup.
  f_equal. apply set_eq. intros k. by rewrite !elem_of_list_to_set, first_seen_ids.
Qed.

Lemma lineage_entries_citations (rows : list query_row) :
  (lineage_entry <$> rows) ≫= lq_sources_cited = citations rows.
Proof.
  unfold citations. induction rows as [|row rows IH]; [done|].
  rewrite fmap_cons, !bind_cons. by rewrite IH.
Qed.

Lemma entries_citations (entries : list lineage_query) (rows : list query_row) :
  Forall2 entry_of_row entries rows →
  entries ≫= lq_sources_cited = citations rows.
Proof.
  unfold citations. induction 1 as [|entry row entries rows Hentry _ IH]; [done|].
  rewrite !bind_cons, IH. f_equal. apply Hentry.
Qed.

(** C1: [get_lineage] returns the session's query rows, all of them, by
    [created_at] ascending: the entries of [queries] carry, row by row, the
    query id, question, answer, confidence, reasoning, cited sources and
    timestamp of those rows, and come out in timestamp order. A source is in
    [all_sources] exactly when it is the first citation of its document
    identifier in the citations scanned in that order, and [unique_sources]
    is the number of distinct identifiers cited. For citations
    [[A, B, A', C]] with [A'] citing the document of [A], the sources are
    [A, B, C], with the record of the first occurrence for [A]. *)
Theorem get_lineage_queries_and_first_seen_sources (session_id : string) (db : database) :
  ∃ rows resp,
    get_lineage session_id db = (db, Ok resp) ∧
    rows ≡ₚ filter (λ q, q_session_id q = session_id) (queries db) ∧
    StronglySorted (λ a b, String.le (q_created_at a) (q_created_at b)) rows ∧
    Forall2 entry_of_row (l_queries resp) rows ∧
    StronglySorted (λ a b, String.le (lq_created_at a) (lq_created_at b))
                   (l_queries resp) ∧
    (∀ source, source ∈ all_sources resp ↔
               ∃ i, first_citation (ls_document_id source) (citations rows)
                    = Some (i, source)) ∧
    unique_sources resp =
      size (list_to_set (ls_document_id <$> citations rows) : gset string) ∧
    (∀ a1 b a2 c,
       citations rows = [a1; b; a2; c] →
       ls_document_id a2 = ls_document_id a1 →
       ls_document_id b ≠ ls_document_id a1 →
       ls_document_id c ≠ ls_document_id a1 →
       ls_document_id c ≠ ls_document_id b →
       all_sources resp = [a1; b; c] ∧ unique_sources resp = 3).
Proof.
  exists (select_queries db session_id). eexists.
  split; [apply get_lineage_eq|]. cbn zeta. cbn [l_queries all_sources unique_sources].
  split; [apply select_queries_perm|].
  split; [apply select_queries_sorted|].
  split.
  { apply Forall2_fmap_l, Forall_Forall2_diag, Forall_forall.
    intros row _. by repeat split. }
  split.
  { eapply StronglySorted_fmap; [|apply select_queries_sorted]. done. }
  split; [|split; [apply first_seen_length|]].
  - intros source. rewrite elem_of_first_seen. split; [naive_solver|].
    intros Hi. split; [apply not_elem_of_nil|done].
  - intros a1 b a2 c -> Ha2 Hb Hc Hcb. cbn [first_seen].
    rewrite decide_False by apply not_elem_of_nil.
    rewrite decide_False by set_solver.
    rewrite decide_True by set_solver.
    rewrite decide_False by set_solver. done.
Qed.

(** C5: for a session id without any row in [queries], known or not,
    [get_lineage] returns the empty aggregate for that id: zero counts and
    empty lists, not an exception. *)
Theorem get_lineage_without_queries_is_empty (session_id : string) (db : database) :
  (∀ q, q ∈ queries db → q_session_id q ≠ session_id) →
  get_lineage session_id db =
  (db, Ok {| l_session_id := session_id;
             total_queries := 0;
             unique_sources := 0;
             l_queries := [];
             all_sources := [] |}).
Proof.
  intros Hnone%select_queries_nil. unfold get_lineage. unfold_M. by rewrite Hnone.
Qed.

(** C10: in every lineage response [total_queries] is the length of
    [queries], [unique_sources] is the length of [all_sources], no document
    identifier occurs twice in [all_sources], the queries are in [created_at]
    order, and [all_sources] lists the sources in the order of the first
    citation of their identifiers across the [sources_cited] of those
    queries. *)
Theorem lineage_response_consistent (session_id : string) (db : database) :
  ∃ resp,
    get_lineage session_id db = (db, Ok resp) ∧
    l_session_id resp = session_id ∧
    total_queries resp = length (l_queries resp) ∧
    unique_sources resp = length (all_sources resp) ∧
    NoDup (ls_document_id <$> all_sources resp) ∧
    StronglySorted (λ a b, String.le (lq_created_at a) (lq_created_at b))
                   (l_queries resp) ∧
    ∀ i j a b,
      all_sources resp !! i = Some a → all_sources resp !! j = Some b → i < j →
      ∃ fa fb,
        first_citation (ls_document_id a) (l_queries resp ≫= lq_sources_cited)
          = Some (fa, a) ∧
        first_citation (ls_document_id b) (l_queries resp ≫= lq_sources_cited)
          = Some (fb, b) ∧
        fa < fb.
Proof.
  eexists. split; [apply get_lineage_eq|]. cbn zeta.
  cbn [l_session_id l_queries all_sources unique_sources total_queries].
  split; [done|]. split; [by rewrite length_fmap|]. split; [done|].
  split; [apply first_seen_NoDup|]. split.
  - eapply StronglySorted_fmap; [|apply select_queries_sorted]. done.
  - rewrite lineage_entries_citations. apply first_seen_order.
Qed.

(** ** Session listing *)

Section left_join_facts.
Context (db : database).

Lemma join_rows_eq (s : session_row) :
  join_rows db s =
  match filter (λ q, q_session_id q = s_session_id s) (queries db) with
  | [] => [(s, None)]
  | matching => (λ q, (s, Some q)) <$> matching
  end.
Proof.
  unfold join_rows.
  rewrite (List_filter_decide _ (λ q, q_session_id q = s_session_id s)); [done|].
  intros q. rewrite String.eqb_sym. apply eqb_decide.
Qed.

Lemma join_rows_fst (s : session_row) (r : session_row * option query_row) :
  r ∈ join_rows db s → r.1 = s.
Proof.
  rewrite join_rows_eq. destruct (filter _ _) as [|q m].
  - by intros ->%list_elem_of_singleton.
  - by intros (q' & -> & _)%list_elem_of_fmap.
Qed.

Lemma join_rows_head (s : session_row) :
  ∃ r rest, join_rows db s = r :: rest ∧ r.1 = s.
Proof.
  rewrite join_rows_eq. destruct (filter _ _) as [|q m]; simpl; eauto.
Qed.

Lemma count_matched (s : session_row) (l : list query_row) :
  length (List.filter (λ r : session_row * option query_row,
                         if r.2 is Some _ then true else false)
                      ((λ q, (s, Some q)) <$> l))
  = length l.
Proof.
  induction l as [|q l IH]; [done|].
  rewrite fmap_cons. cbn [List.filter snd length]. by rewrite IH.
Qed.

Lemma join_rows_count (s : session_row) :
  length (List.filter (λ r : session_row * option query_row,
                         if r.2 is Some _ then true else false) (join_rows db s))
  = length (filter (λ q, q_session_id q = s_session_id s) (queries db)).
Proof.
  rewrite join_rows_eq. destruct (filter _ _) as [|q m]; [done|].
  apply count_matched.
Qed.

Lemma filter_join_rows_same (s : session_row) :
  List.filter (λ r : session_row * option query_row,
                 String.eqb (s_session_id r.1) (s_session_id s)) (join_rows db s)
  = join_rows db s.
Proof.
  pose proof (join_rows_fst s) as Hfst.
  induction (join_rows db s) as [|r l IH]; simpl; [done|].
  rewrite (Hfst r) by (by left). rewrite String.eqb_refl. f_equal.
  apply IH. intros r' Hr'. apply Hfst. by right.
Qed.

Lemma filter_join_rows_other (s : session_row) (key : string) :
  s_session_id s ≠ key →
  List.filter (λ r : session_row * option query_row,
                 String.eqb (s_session_id r.1) key) (join_rows db s) = [].
Proof.
  intros Hne. apply List_filter_none. intros r ->%join_rows_fst.
  by apply String.eqb_neq.
Qed.

Lemma filter_join_absent (ss : list session_row) (key : string) :
  key ∉ s_session_id <$> ss →
  List.filter (λ r : session_row * option query_row,
                 String.eqb (s_session_id r.1) key) (flat_map (join_rows db) ss) = [].
Proof.
  induction ss as [|s ss IH]; simpl; [done|].
  rewrite not_elem_of_cons. intros [Hne Hnotin].
  rewrite List.filter_app, filter_join_rows_other, IH by done. done.
Qed.

(** The group of a session consists of the join rows of that session. *)
Lemma filter_join_present (ss : list session_row) (s : session_row) :
  NoDup (s_session_id <$> ss) → s ∈ ss →
  List.filter (λ r : session_row * option query_row,
                 String.eqb (s_session_id r.1) (s_session_id s))
              (flat_map (join_rows db) ss)
  = join_rows db s.
Proof.
  induction ss as [|s' ss IH]; simpl; [by intros _ ?%not_elem_of_nil|].
  rewrite NoDup_cons, List.filter_app. intros [Hs' Hnodup] [->|Hin]%elem_of_cons.
  - by rewrite filter_join_rows_same, filter_join_absent, app_nil_r.
  - rewrite filter_join_rows_other, IH; [done..|].
    intros Heq. apply Hs'. rewrite Heq. by apply list_elem_of_fmap_2.
Qed.

Lemma join_keys (ss : list session_row) (key : string) :
  key ∈ (λ r : session_row * option query_row, s_session_id r.1)
          <$> flat_map (join_rows db) ss
  ↔ key ∈ s_session_id <$> ss.
Proof.
  rewrite !list_elem_of_fmap. split.
  - intros (r & -> & Hr). rewrite list_elem_of_In, in_flat_map in Hr.
    destruct Hr as (s & Hs & Hr). rewrite <- !list_elem_of_In in *.
    apply join_rows_fst in Hr as ->. eauto.
  - intros (s & -> & Hs). destruct (join_rows_head s) as (r & rest & Hrows & Hr).
    exists r. split; [by rewrite Hr|].
    rewrite list_elem_of_In, in_flat_map. exists s.
    rewrite <- !list_elem_of_In, Hrows. split; [done|by left].
Qed.

Lemma group_row_session (s : session_row) :
  NoDup (s_session_id <$> sessions db) → s ∈ sessions db →
  group_row (left_join db) (s_session_id s) = with_query_count db s.
Proof.
  intros Hnodup Hs. unfold group_row, with_query_count, left_join.
  rewrite filter_join_present by done. rewrite join_rows_count. f_equal.
  by destruct (join_rows_head s) as (r & rest & -> & ->).
Qed.

Lemma group_keys_sessions :
  NoDup (s_session_id <$> sessions db) →
  group_keys (left_join db) ≡ₚ s_session_id <$> sessions db.
Proof.
  intros Hnodup. unfold group_keys. rewrite order_by_perm.
  apply NoDup_Permutation; [apply NoDup_remove_dups|done|].
  intros key. rewrite elem_of_remove_dups. apply join_keys.
Qed.
End left_join_facts.

Lemma created_at_ge_sorted (l : list session_info) :
  StronglySorted (λ a b, String.le (si_created_at b) (si_created_at a))
                 (order_by created_at_ge l).
Proof.
  eapply StronglySorted_mono; [|apply (order_by_sorted created_at_ge)].
  - intros a b Hab. unfold created_at_ge in Hab. unfold String.le. by rewrite Hab.
  - intros a b. apply string_leb_false.
  - intros a b c Hab Hbc. unfold created_at_ge in *. by eapply string_leb_trans.
Qed.

(** C8: under the primary key of [sessions], [list_sessions] returns one
    row per stored session, carrying the session's id, its creation time and
    the number of its queries, ordered by creation time descending; a
    session without queries is listed with [query_count] 0. *)
Theorem list_sessions_all_with_counts (db : database) :
  primary_keys db →
  ∃ rows,
    list_sessions db = (db, Ok rows) ∧
    rows ≡ₚ with_query_count db <$> sessions db ∧
    StronglySorted (λ a b, String.le (si_created_at b) (si_created_at a)) rows ∧
    ∀ s, s ∈ sessions db →
         (∀ q, q ∈ queries db → q_session_id q ≠ s_session_id s) →
         {| si_session_id := s_session_id s;
            si_created_at := s_created_at s;
            si_query_count := 0 |} ∈ rows.
Proof.
  intros [Hnodup _]. eexists. split; [done|].
  assert (order_by created_at_ge
            (group_row (left_join db) <$> group_keys (left_join db))
          ≡ₚ with_query_count db <$> sessions db) as Hperm.
  { rewrite order_by_perm, group_keys_sessions by done.
    rewrite <- list_fmap_compose.
    assert (group_row (left_join db) ∘ s_session_id <$> sessions db
            = with_query_count db <$> sessions db) as ->; [|done].
    apply list_eq_Forall2, Forall2_fmap, Forall_Forall2_diag, Forall_forall.
    intros s Hs. simpl. by apply group_row_session. }
  split; [done|]. split; [apply created_at_ge_sorted|].
  intros s Hs Hnone. rewrite Hperm. apply list_elem_of_fmap.
  exists s. split; [|done]. unfold with_query_count. f_equal.
  by rewrite filter_none.
Qed.

(** ** Seeding *)

Section seeding_facts.
Context {vector : Type}.
Context (get_embedding : string → outcome vector).

Lemma upsert_fold_other (points : list (PointStruct vector))
    (m : gmap Z (vector * payload)) (k : Z) :
  k ∉ ps_id <$> points →
  foldl (λ m p, <[ps_id p := (ps_vector p, ps_payload p)]> m) m points !! k = m !! k.
Proof.
  revert m. induction points as [|p points IH]; intros m; simpl; [done|].
  rewrite not_elem_of_cons. intros [Hne Hk]. rewrite IH by done.
  by rewrite lookup_insert_ne.
Qed.

Lemma upsert_fold_lookup (points : list (PointStruct vector))
    (m : gmap Z (vector * payload)) (p : PointStruct vector) :
  NoDup (ps_id <$> points) → p ∈ points →
  foldl (λ m p, <[ps_id p := (ps_vector p, ps_payload p)]> m) m points !! ps_id p
  = Some (ps_vector p, ps_payload p).
Proof.
  revert m. induction points as [|p' points IH]; intros m; simpl;
    [by intros _ ?%not_elem_of_nil|].
  rewrite NoDup_cons. intros [Hp' Hnodup] [->|Hin]%elem_of_cons.
  - by rewrite upsert_fold_other, lookup_insert_eq.
  - by apply IH.
Qed.

(** The loop over the corpus when every embedding call succeeds. *)
Lemma embed_documents_Ok (i : nat) (docs : list seed_document)
    (points : list (PointStruct vector)) :
  (∀ doc, doc ∈ docs → ∃ v, get_embedding (sd_text doc) = Ok v) →
  ∃ new,
    embed_documents get_embedding i docs points = Ok (points ++ new) ∧
    ps_id <$> new = Z.of_nat <$> seq i (length docs) ∧
    ∀ j doc, docs !! j = Some doc →
      ∃ v, get_embedding (sd_text doc) = Ok v ∧
           new !! j = Some {| ps_id := Z.of_nat (i + j);
                              ps_vector := v;
                              ps_payload := {| p_document_id := sd_document_id doc;
                                               p_title := sd_title doc;
                                               p_section := sd_section doc;
                                               p_text := sd_text doc |} |}.
Proof.
  revert i points. induction docs as [|doc docs IH]; intros i points Hall; simpl.
  - exists []. by rewrite app_nil_r.
  - destruct (Hall doc) as [v Hv]; [by left|]. rewrite Hv.
    destruct (IH (S i) (points ++
                [ {| ps_id := Z.of_nat i; ps_vector := v;
                     ps_payload := {| p_document_id := sd_document_id doc;
                                      p_title := sd_title doc;
                                      p_section := sd_section doc;
                                      p_text := sd_text doc |} |} ]))
      as (new & Hnew & Hids & Hlookup).
    { intros d Hd. apply Hall. by right. }
    eexists (_ :: new). rewrite Hnew, <- app_assoc. split; [done|]. split.
    + by rewrite fmap_cons, Hids.
    + intros [|j] d Hd; simpl in *.
      * injection Hd as <-. exists v. by rewrite Nat.add_0_r.
      * destruct (Hlookup j d Hd) as (v' & Hv' & Hj). exists v'.
        by rewrite Nat.add_succ_r.
Qed.

(** C9: when the embedding calls succeed, seeding succeeds from any state of
    the store and leaves under [COLLECTION_NAME] a collection with vector
    size [EMBEDDING_DIM] and cosine distance that holds, for each seed
    document, at its index as integer id, the document's embedding with the
    payload of document id, title, section and text, and nothing else;
    whatever collection had that name before is gone, other collections are
    untouched. *)
Theorem seed_collection_full_refresh (st : gmap string (collection vector)) :
  (∀ doc, doc ∈ SEED_DOCUMENTS → ∃ v, get_embedding (sd_text doc) = Ok v) →
  ∃ c,
    seed_collection get_embedding st = (<[COLLECTION_NAME := c]> st, Ok tt) ∧
    c_config c = {| vp_size := 1536; vp_distance := COSINE |} ∧
    (∀ i doc, SEED_DOCUMENTS !! i = Some doc →
       ∃ v, get_embedding (sd_text doc) = Ok v ∧
            c_points c !! Z.of_nat i
            = Some (v, {| p_document_id := sd_document_id doc;
                          p_title := sd_title doc;
                          p_section := sd_section doc;
                          p_text := sd_text doc |})) ∧
    (∀ id, is_Some (c_points c !! id) →
           ∃ i, id = Z.of_nat i ∧ i < length SEED_DOCUMENTS).
Proof.
  intros Hall.
  destruct (embed_documents_Ok 0 SEED_DOCUMENTS [] Hall) as (new & Hnew & Hids & Hlookup).
  assert (NoDup (ps_id <$> new)) as Hnodup.
  { rewrite Hids. apply (NoDup_fmap_2 _), NoDup_seq. }
  eexists {| c_config := _; c_points := _ |}.
  split; [|split; [reflexivity|split]].
  - unfold seed_collection, collection_exists, delete_collection, create_collection,
      upsert.
    unfold_M. rewrite Hnew.
    destruct (st !! COLLECTION_NAME) as [old|] eqn:Hold.
    + rewrite lookup_delete_eq, lookup_insert_eq.
      by rewrite insert_insert_eq, insert_delete_eq.
    + rewrite Hold, lookup_insert_eq. by rewrite insert_insert_eq.
  - intros i doc Hdoc. destruct (Hlookup i doc Hdoc) as (v & Hv & Hi).
    exists v. split; [done|]. simpl in Hi.
    apply list_elem_of_lookup_2 in Hi.
    exact (upsert_fold_lookup new ∅ _ Hnodup Hi).
  - intros id [x Hx]. cbn [c_points] in Hx.
    destruct (decide (id ∈ ps_id <$> new)) as [Hin|Hnotin].
    + rewrite Hids in Hin. apply list_elem_of_fmap in Hin as (i & -> & Hi).
      apply elem_of_seq in Hi. exists i. split; [done|lia].
    + by rewrite upsert_fold_other, lookup_empty in Hx.
Qed.
End seeding_facts.

(** * The statements on the sample data *)

Lemma sample_primary_keys : primary_keys Sample.db.
Proof. split; apply (bool_decide_unpack _); by vm_compute. Defined.

Lemma search_filters_by_title_marker_witness :
  search_documents Sample.embedding Sample.mixed_hits "termination" 3
  = Ok [Sample.doc "BGer 1" (9 # 10); Sample.doc "OR Art 5" (8 # 10)] ∧
  search_case_law Sample.embedding Sample.mixed_hits "termination"
  = Ok [Sample.doc "BGer 1" (9 # 10)] ∧
  search_statutes Sample.embedding Sample.mixed_hits "termination"
  = Ok [Sample.doc "OR Art 5" (8 # 10)].
Proof.
  split; [reflexivity|].
  destruct (search_filters_by_title_marker Sample.embedding Sample.mixed_hits
              "termination" _ eq_refl) as (_ & _ & Hexample).
  apply Hexample; reflexivity.
Defined.

Lemma search_all_filtered_returns_empty_witness :
  search_case_law Sample.embedding Sample.other_hits "termination" = Ok [] ∧
  search_statutes Sample.embedding Sample.other_hits "termination" = Ok [].
Proof.
  destruct (search_all_filtered_returns_empty Sample.embedding Sample.other_hits
              "termination" _ eq_refl) as [Hcase Hstatute].
  split.
  - apply Hcase. intros r ->%list_elem_of_singleton.
    split; apply contains_false_iff; reflexivity.
  - apply Hstatute. intros r ->%list_elem_of_singleton.
    apply contains_false_iff; reflexivity.
Defined.

Lemma ensure_session_idempotent_witness :
  ∃ db1,
    ensure_session "s4" "2024-05-04T10:00:00+00:00" Sample.db = (db1, Ok tt) ∧
    ensure_session "s4" "2024-05-05T10:00:00+00:00" db1 = (db1, Ok tt) ∧
    length (filter (λ s, s_session_id s = "s4") (sessions db1)) = 1 ∧
    select_session db1 "s4"
    = Some {| s_session_id := "s4"; s_created_at := "2024-05-04T10:00:00+00:00" |}.
Proof.
  destruct (ensure_session_idempotent "s4" "2024-05-04T10:00:00+00:00"
              "2024-05-05T10:00:00+00:00" Sample.db sample_primary_keys)
    as (db1 & H1 & H2 & Hone & _ & Hnew).
  exists db1. repeat split; try done.
  change (select_session Sample.db "s4") with (@None session_row) in Hnew.
  by rewrite Hnew.
Defined.

Lemma session_insert_guarded_by_check_witness :
  ensure_session "s1" "2024-06-01T00:00:00+00:00" Sample.db = (Sample.db, Ok tt) ∧
  insert_session "s1" "2024-06-01T00:00:00+00:00" Sample.db
  = (Sample.db, Raised (IntegrityError "UNIQUE constraint failed: sessions.session_id")).
Proof.
  destruct (session_insert_guarded_by_check "s1" "2024-06-01T00:00:00+00:00"
              Sample.db _ eq_refl) as (Hensure & Hinsert & _).
  by split.
Defined.

Lemma get_lineage_without_queries_is_empty_witness :
  get_lineage "s3" Sample.db =
  (Sample.db, Ok {| l_session_id := "s3"; total_queries := 0; unique_sources := 0;
                    l_queries := []; all_sources := [] |}) ∧
  get_lineage "never-seen" Sample.db =
  (Sample.db, Ok {| l_session_id := "never-seen"; total_queries := 0;
                    unique_sources := 0; l_queries := []; all_sources := [] |}).
Proof.
  split; apply get_lineage_without_queries_is_empty;
    apply Forall_forall; repeat constructor; done.
Defined.

Lemma list_sessions_all_with_counts_witness :
  ∃ rows,
    list_sessions Sample.db = (Sample.db, Ok rows) ∧
    {| si_session_id := "s3"; si_created_at := "2024-05-03T10:00:00+00:00";
       si_query_count := 0 |} ∈ rows.
Proof.
  destruct (list_sessions_all_with_counts Sample.db sample_primary_keys)
    as (rows & Hrows & _ & _ & Hzero).
  exists rows. split; [done|].
  apply (Hzero {| s_session_id := "s3"; s_created_at := "2024-05-03T10:00:00+00:00" |}).
  - do 2 right. by left.
  - apply Forall_forall. repeat constructor; done.
Defined.

Lemma seed_collection_full_refresh_witness :
  ∃ c,
    seed_collection Sample.embedding Sample.stale_store
    = (<[COLLECTION_NAME := c]> Sample.stale_store, Ok tt) ∧
    c_config c = {| vp_size := 1536; vp_distance := COSINE |} ∧
    c_points c !! 99%Z = None ∧
    (snd <$> c_points c !! 3%Z)
    = Some {| p_document_id := "bger-4a-123-2024";
              p_title := "BGer 4A_123/2024 — Federal Supreme Court";
              p_section := "Judgment of 15 March 2024";
              p_text := default "" (sd_text <$> SEED_DOCUMENTS !! 3) |}.
Proof.
  destruct (seed_collection_full_refresh Sample.embedding Sample.stale_store)
    as (c & Hseed & Hconfig & Hpoints & Hrange).
  { intros doc _. by eexists. }
  exists c. split; [done|]. split; [done|]. split.
  - destruct (c_points c !! 99%Z) eqn:Hstale; [|done].
    destruct (Hrange 99%Z) as (i & Hi & Hlt); [by eexists|].
    simpl in Hlt. lia.
  - destruct (Hpoints 3 _ eq_refl) as (v & _ & Hv).
    change (Z.of_nat 3) with 3%Z in Hv. by rewrite Hv.
Defined.

Lemma get_lineage_queries_and_first_seen_sources_witness :
  ∃ resp,
    get_lineage "s1" Sample.db = (Sample.db, Ok resp) ∧
    l_queries resp ≫= lq_sources_cited = [Sample.A; Sample.B; Sample.A'; Sample.C] ∧
    all_sources resp = [Sample.A; Sample.B; Sample.C] ∧
    unique_sources resp = 3.
Proof.
  destruct (get_lineage_queries_and_first_seen_sources "s1" Sample.db)
    as (rows & resp & Hget & _ & _ & Hqueries & _ & _ & _ & Hexample).
  exists resp. split; [done|].
  rewrite <- (entries_citations _ _ Hqueries) in Hexample.
  assert (l_queries resp ≫= lq_sources_cited
          = [Sample.A; Sample.B; Sample.A'; Sample.C]) as Hcited.
  { vm_compute in Hget. by injection Hget as <-. }
  split; [done|]. by apply (Hexample _ _ _ _ Hcited).
Defined.

(** The lineage of [s1] in the sample: the queries come out in timestamp
    order, the sources are [A, B, C], and the record for the document of [A]
    is [A], not [A']. *)
Example sample_lineage :
  ∃ resp,
    get_lineage "s1" Sample.db = (Sample.db, Ok resp) ∧
    lq_query_id <$> l_queries resp = ["q1"; "q2"] ∧
    total_queries resp = 2 ∧ unique_sources resp = 3 ∧
    all_sources resp = [Sample.A; Sample.B; Sample.C].
Proof. eexists. split; [reflexivity|]. by vm_compute. Qed.

(** The history loaded for [s1] is the blob of [q2], the row with the
    latest timestamp, although [q1] was inserted after it. *)
Example sample_history :
  load_last_history "s1" Sample.db = (Sample.db, Ok (Some "[m1, m2]")) ∧
  load_last_history "s3" Sample.db = (Sample.db, Ok None).
Proof. split; reflexivity. Qed.

Example sample_sessions :
  list_sessions Sample.db =
  (Sample.db,
   Ok [ {| si_session_id := "s3"; si_created_at := "2024-05-03T10:00:00+00:00";
           si_query_count := 0 |};
        {| si_session_id := "s2"; si_created_at := "2024-05-02T10:00:00+00:00";
           si_query_count := 1 |};
        {| si_session_id := "s1"; si_created_at := "2024-05-01T10:00:00+00:00";
           si_query_count := 2 |} ]).
Proof. reflexivity. Qed.

(** On the seed corpus the two filters split the six documents three and
    three. *)
Example seed_titles_split :
  sd_document_id <$> List.filter (λ d, contains "BGer" (sd_title d) ||
                                        contains "Mietgericht" (sd_title d))
                                 SEED_DOCUMENTS
  = ["bger-4a-123-2024"; "bger-4a-456-2023"; "zh-mietgericht-2024-31"] ∧
  sd_document_id <$> List.filter (λ d, contains "OR Art" (sd_title d)) SEED_DOCUMENTS
  = ["or-art-271"; "or-art-271a"; "or-art-259a"].
Proof. split; reflexivity. Qed.

Lemma history_is_latest_persisted_blob_witness :
  ∃ db' resp,
    post_query id id Sample.agent
      {| qr_query := "and the deposit?"; qr_session_id := Some "s1" |}
      "fresh" "q4" "2024-05-01T10:10:00+00:00" Sample.db = (db', Ok resp) ∧
    resp_session_id resp = "s1" ∧
    load_last_history "s1" db' = (db', Ok (Some "and the deposit?")).
Proof.
  eexists _, _. split; [vm_compute; reflexivity|]. split; [reflexivity|].
  assert (∀ q, q ∈ queries Sample.db → q_session_id q = "s1" →
               String.ltb (q_created_at q) "2024-05-01T10:10:00+00:00" = true)
    as Hlater.
  { apply (Forall_forall
             (λ q, q_session_id q = "s1" →
                   String.ltb (q_created_at q) "2024-05-01T10:10:00+00:00" = true)).
    repeat constructor; done. }
  destruct (proj2 (history_is_latest_persisted_blob id id Sample.agent Sample.db "s1")
              {| qr_query := "and the deposit?"; qr_session_id := Some "s1" |}
              "fresh" "q4" "2024-05-01T10:10:00+00:00" _ _ eq_refl eq_refl Hlater)
    as (row & Hrows & _ & _ & _ & Hload & _).
  apply app_inj_tail in Hrows as [_ <-]. exact Hload.
Defined.

(** C2, as stated, fails: the call is stamped 10:02, below the 10:05 of the
    stored query [q2] of the same session; it persists the blob ["first"],
    and the next load for the session still returns the blob of [q2]. *)
Lemma history_continuity_fails_below_latest :
  ∃ db' resp row,
    post_query id id Sample.agent
      {| qr_query := "first"; qr_session_id := Some "s1" |}
      "fresh" "q4" "2024-05-01T10:02:00+00:00" Sample.db = (db', Ok resp) ∧
    last (queries db') = Some row ∧
    q_query_id row = resp_query_id resp ∧
    q_session_id row = "s1" ∧
    q_messages_json row = "first" ∧
    load_last_history "s1" db' = (db', Ok (Some "[m1, m2]")) ∧
    "[m1, m2]" ≠ "first".
Proof.
  eexists _, _, _. split; [vm_compute; reflexivity|].
  split; [reflexivity|]. by repeat split.
Qed.

(** * Further properties of the handlers *)

(** ** [POST /query] *)

Lemma ensure_session_cases (session_id now : string) (db : database) :
  (∃ row, select_session db session_id = Some row ∧
          ensure_session session_id now db = (db, Ok tt)) ∨
  (select_session db session_id = None ∧
   ensure_session session_id now db =
   ({| sessions := sessions db ++ [ {| s_session_id := session_id;
                                       s_created_at := now |} ];
       queries := queries db |}, Ok tt)).
Proof.
  rewrite ensure_session_eq.
  destruct (select_session db session_id) as [row|] eqn:Hsel; [left; eauto|].
  right. by rewrite insert_session_absent.
Qed.

Lemma select_queries_same_queries (db1 db2 : database) (session_id : string) :
  queries db1 = queries db2 →
  select_queries db1 session_id = select_queries db2 session_id.
Proof. unfold select_queries. by intros ->. Qed.

Section post_query_facts.
Context {messages : Type}.
Context (validate_json : string → messages) (dump_json : messages → string).
Context (legal_agent_run :
           string → LegalDeps → option messages → outcome (LegalResult * messages)).

(** The handler, step by step. *)
Lemma post_query_eq (req : QueryRequest) (fresh_uuid query_id now : string)
    (db : database) :
  post_query validate_json dump_json legal_agent_run req fresh_uuid query_id now db =
  let session_id := request_session_id req fresh_uuid in
  let db1 := (ensure_session session_id now db).1 in
  match legal_agent_run (qr_query req)
          {| deps_session_id := session_id; deps_user_query := qr_query req |}
          (validate_json <$> last (q_messages_json <$> select_queries db session_id)) with
  | Raised e => (db1, Raised e)
  | Ok result =>
    match insert_query {| q_query_id := query_id;
                          q_session_id := session_id;
                          q_user_query := qr_query req;
                          q_result_json := result.1;
                          q_messages_json := dump_json result.2;
                          q_created_at := now |} db1 with
    | (db2, Ok _) => (db2, Ok {| resp_session_id := session_id;
                                 resp_query_id := query_id;
                                 resp_result := result.1 |})
    | (db2, Raised e) => (db2, Raised e)
    end
  end.
Proof.
  unfold post_query. fold (request_session_id req fresh_uuid).
  set (session_id := request_session_id req fresh_uuid). cbn zeta.
  destruct (ensure_session_Ok session_id now db) as (db1 & Hens & Hq & Hsel).
  unfold mbind at 1, M_bind at 1. rewrite Hens.
  unfold mbind at 1, M_bind at 1. rewrite load_last_history_eq.
  unfold mbind at 1, M_bind at 1. unfold lift.
  rewrite (select_queries_same_queries db1 db) by done. simpl.
  destruct (legal_agent_run _ _ _) as [result|e]; [|done].
  unfold mbind, M_bind, mret, M_ret.
  by destruct (insert_query _ db1) as [db2 [[]|e]].
Qed.

Lemma insert_query_cases (row : query_row) (db : database) :
  ((q_query_id row ∉ q_query_id <$> queries db) ∧
   insert_query row db =
   ({| sessions := sessions db; queries := queries db ++ [row] |}, Ok tt)) ∨
  (q_query_id row ∈ q_query_id <$> queries db ∧
   insert_query row db =
   (db, Raised (IntegrityError "UNIQUE constraint failed: queries.query_id"))).
Proof.
  unfold insert_query. destruct (existsb _ _) eqn:Hex.
  - right. split; [|done]. apply existsb_exists in Hex as (q & Hq & Heq).
    apply String.eqb_eq in Heq. rewrite <- Heq.
    apply list_elem_of_fmap_2. by apply list_elem_of_In.
  - left. split; [|done]. by apply existsb_query_id.
Qed.

(** X1: a successful call returns the drawn query id and the session id it
    was served under: the request's id when that is a non-empty string, the
    fresh uuid when the id is missing or empty. Afterwards that session has
    a row: the row it had, or a new one stamped with this call's clock
    reading. *)
Theorem post_query_session_choice (req : QueryRequest) (fresh_uuid query_id now : string)
    (db db' : database) (resp : query_response) :
  post_query validate_json dump_json legal_agent_run req fresh_uuid query_id now db
  = (db', Ok resp) →
  resp_query_id resp = query_id ∧
  (qr_session_id req = None ∨ qr_session_id req = Some "" →
   resp_session_id resp = fresh_uuid) ∧
  (∀ s, qr_session_id req = Some s → s ≠ "" → resp_session_id resp = s) ∧
  ∃ row,
    select_session db' (resp_session_id resp) = Some row ∧
    match select_session db (resp_session_id resp) with
    | Some old => row = old
    | None => row = {| s_session_id := resp_session_id resp; s_created_at := now |}
    end.
Proof.
  rewrite post_query_eq. cbn zeta.
  set (session_id := request_session_id req fresh_uuid).
  destruct (legal_agent_run _ _ _) as [result|e]; [|done].
  match goal with |- context [insert_query ?r ?d] =>
    destruct (insert_query_cases r d) as [[_ ->]|[_ ->]]; [|done] end.
  intros [= <- <-]. cbn [resp_query_id resp_session_id].
  split; [done|]. split; [|split].
  - unfold session_id, request_session_id. by intros [->| ->].
  - intros s Hs Hne. unfold session_id, request_session_id. rewrite Hs.
    apply String.eqb_neq in Hne. by rewrite Hne.
  - destruct (ensure_session_cases session_id now db)
      as [(row & Hsel & ->)|[Hsel ->]]; rewrite Hsel.
    + by exists row.
    + eexists. split; [|done]. by apply select_session_app_new.
Qed.

(** X2: whatever its outcome, a call only appends: the rows of both tables
    are kept as they are, in place, and each table grows by at most one
    row. *)
Theorem post_query_only_appends (req : QueryRequest) (fresh_uuid query_id now : string)
    (db : database) :
  let db' := (post_query validate_json dump_json legal_agent_run
                req fresh_uuid query_id now db).1 in
  sessions db `prefix_of` sessions db' ∧
  queries db `prefix_of` queries db' ∧
  length (sessions db') ≤ S (length (sessions db)) ∧
  length (queries db') ≤ S (length (queries db)).
Proof.
  rewrite post_query_eq. cbn zeta.
  set (session_id := request_session_id req fresh_uuid).
  assert (sessions db `prefix_of` sessions (ensure_session session_id now db).1 ∧
          queries (ensure_session session_id now db).1 = queries db ∧
          length (sessions (ensure_session session_id now db).1)
          ≤ S (length (sessions db))) as (Hs & Hq & Hl).
  { destruct (ensure_session_cases session_id now db)
      as [(row & _ & ->)|[_ ->]]; simpl.
    - split; [done|]. split; [done|lia].
    - split; [by apply prefix_app_r|]. split; [done|]. rewrite length_app. simpl. lia. }
  destruct (legal_agent_run _ _ _) as [result|e]; simpl.
  - match goal with |- context [insert_query ?r ?d] =>
      destruct (insert_query_cases r d) as [[_ ->]|[_ ->]] end; simpl; rewrite Hq.
    + split; [done|]. split; [by apply prefix_app_r|]. split; [done|].
      rewrite length_app. simpl. lia.
    + split; [done|]. split; [done|]. split; [done|lia].
  - rewrite Hq. split; [done|]. split; [done|]. split; [done|lia].
Qed.

(** X3: when the agent run raises, the call raises the same exception and
    persists no query; the session row has been committed all the same. *)
Theorem post_query_agent_failure (req : QueryRequest) (fresh_uuid query_id now : string)
    (db : database) (e : exn) :
  legal_agent_run (qr_query req)
    {| deps_session_id := request_session_id req fresh_uuid;
       deps_user_query := qr_query req |}
    (validate_json <$>
       last (q_messages_json <$> select_queries db (request_session_id req fresh_uuid)))
  = Raised e →
  ∃ db',
    post_query validate_json dump_json legal_agent_run req fresh_uuid query_id now db
    = (db', Raised e) ∧
    queries db' = queries db ∧
    is_Some (select_session db' (request_session_id req fresh_uuid)).
Proof.
  intros Hrun. rewrite post_query_eq. cbn zeta. rewrite Hrun.
  destruct (ensure_session_Ok (request_session_id req fresh_uuid) now db)
    as (db1 & Hens & Hq & Hsel).
  exists db1. by rewrite Hens.
Qed.

(** X4: a stored query is never overwritten. A call that succeeds had an
    agent run that succeeded and drew a query id that was not a key of
    [queries]; a call whose query id is taken raises, whatever the agent
    did, and leaves [queries] as it was. *)
Theorem post_query_taken_query_id (req : QueryRequest) (fresh_uuid query_id now : string)
    (db : database) :
  let outcome_of_run :=
    legal_agent_run (qr_query req)
      {| deps_session_id := request_session_id req fresh_uuid;
         deps_user_query := qr_query req |}
      (validate_json <$>
         last (q_messages_json <$>
                 select_queries db (request_session_id req fresh_uuid))) in
  let served :=
    post_query validate_json dump_json legal_agent_run req fresh_uuid query_id now db in
  ((∃ resp, served.2 = Ok resp) →
   (∃ result, outcome_of_run = Ok result) ∧ query_id ∉ q_query_id <$> queries db) ∧
  (query_id ∈ q_query_id <$> queries db →
   (∃ e, served.2 = Raised e) ∧ queries served.1 = queries db).
Proof.
  cbn zeta. rewrite post_query_eq. cbn zeta.
  set (session_id := request_session_id req fresh_uuid).
  destruct (ensure_session_Ok session_id now db) as (db1 & Hens & Hq & Hsel).
  rewrite Hens. cbn [fst].
  destruct (legal_agent_run _ _ _) as [result|e].
  - match goal with |- context [insert_query ?r ?d] =>
      destruct (insert_query_cases r d) as [[Hid ->]|[Hid ->]] end;
      cbn [q_query_id] in Hid; rewrite Hq in Hid; cbn [fst snd].
    + split; [eauto|]. by intros Hin.
    + split; [by intros [resp ?]|]. eauto.
  - cbn [fst snd]. split; [by intros [resp ?]|]. eauto.
Qed.
End post_query_facts.

(** ** What the tables always satisfy *)

Lemma ensure_session_foreign_keys (session_id now : string) (db : database) :
  foreign_keys db → foreign_keys (ensure_session session_id now db).1.
Proof.
  intros Hfk. destruct (ensure_session_cases session_id now db)
    as [(row & _ & ->)|[_ ->]]; [done|].
  intros q Hq. simpl in *. rewrite fmap_app. apply elem_of_app. left. by apply Hfk.
Qed.

Section invariant_facts.
Context {messages : Type}.
Context (validate_json : string → messages) (dump_json : messages → string).
Context (legal_agent_run :
           string → LegalDeps → option messages → outcome (LegalResult * messages)).

Lemma post_query_foreign_keys (req : QueryRequest) (fresh_uuid query_id now : string)
    (db : database) :
  foreign_keys db →
  foreign_keys
    (post_query validate_json dump_json legal_agent_run req fresh_uuid query_id now db).1.
Proof.
  intros Hfk. rewrite post_query_eq. cbn zeta.
  set (session_id := request_session_id req fresh_uuid).
  pose proof (ensure_session_foreign_keys session_id now db Hfk) as Hfk1.
  destruct (ensure_session_Ok session_id now db) as (db1 & Hens & Hq & Hsel).
  rewrite Hens in *. cbn [fst] in *.
  destruct (legal_agent_run _ _ _) as [result|e]; [|done].
  match goal with |- context [insert_query ?r ?d] =>
    destruct (insert_query_cases r d) as [[_ ->]|[_ ->]]; [|done] end.
  intros q. cbn [fst queries sessions].
  intros [Hq'| ->%list_elem_of_singleton]%elem_of_app; [by apply Hfk1|].
  cbn [q_session_id]. destruct Hsel as [row Hrow].
  apply select_session_Some in Hrow as [Hin <-]. by apply list_elem_of_fmap_2.
Qed.

(** X5: however many calls are served one after the other, with whatever
    requests, uuid draws, clock readings and agent outcomes, the tables keep
    their keys: no two sessions share a session id, no two queries share a
    query id, and every query belongs to a stored session, although SQLite
    is not asked to enforce the foreign key. *)
Theorem serve_keeps_keys (calls : list call) (db : database) :
  primary_keys db → foreign_keys db →
  primary_keys (serve validate_json dump_json legal_agent_run calls db) ∧
  foreign_keys (serve validate_json dump_json legal_agent_run calls db).
Proof.
  revert db. induction calls as [|c calls IH]; intros db Hpk Hfk; [done|].
  apply IH.
  - by apply post_query_primary_keys.
  - by apply post_query_foreign_keys.
Qed.
End invariant_facts.

Lemma empty_database_foreign_keys : foreign_keys empty_database.
Proof. by intros q ?%not_elem_of_nil. Qed.

(** ** [POST /query] followed by [GET /lineage] *)

Lemma select_queries_length (db : database) (session_id : string) :
  length (select_queries db session_id)
  = length (filter (λ q, q_session_id q = session_id) (queries db)).
Proof. by rewrite select_queries_perm. Qed.

Lemma select_queries_snoc_other (db : database) (row : query_row) (session_id : string) :
  q_session_id row ≠ session_id →
  select_queries {| sessions := sessions db; queries := queries db ++ [row] |} session_id
  = select_queries db session_id.
Proof.
  intros Hne. rewrite !select_queries_filter. simpl.
  by rewrite filter_app, filter_cons_False, filter_nil, app_nil_r.
Qed.

Lemma select_queries_snoc_perm (db : database) (row : query_row) :
  select_queries {| sessions := sessions db; queries := queries db ++ [row] |}
                 (q_session_id row)
  ≡ₚ select_queries db (q_session_id row) ++ [row].
Proof.
  rewrite !select_queries_perm. simpl.
  by rewrite filter_app, filter_cons_True, filter_nil.
Qed.

Lemma select_queries_snoc_last (db : database) (row : query_row) :
  (∀ q, q ∈ queries db → q_session_id q = q_session_id row →
        String.leb (q_created_at q) (q_created_at row) = true) →
  select_queries {| sessions := sessions db; queries := queries db ++ [row] |}
                 (q_session_id row)
  = select_queries db (q_session_id row) ++ [row].
Proof.
  intros Hle. rewrite !select_queries_filter. simpl.
  rewrite filter_app, filter_cons_True, filter_nil by done.
  apply order_by_snoc. intros q [Hsid Hq]%list_elem_of_filter. by apply Hle.
Qed.

(** The identifiers cited by some row. *)
Lemma elem_of_citation_ids (rows : list query_row) (k : string) :
  k ∈ ls_document_id <$> citations rows ↔
  ∃ row, row ∈ rows ∧ k ∈ ls_document_id <$> sources_cited (q_result_json row).
Proof.
  unfold citations. rewrite list_elem_of_fmap. split.
  - intros (c & -> & (row & Hc & Hrow)%list_elem_of_bind).
    exists row. split; [done|]. by apply list_elem_of_fmap_2.
  - intros (row & Hrow & (c & -> & Hc)%list_elem_of_fmap).
    exists c. split; [done|]. apply list_elem_of_bind. eauto.
Qed.

Lemma citations_app (rows1 rows2 : list query_row) :
  citations (rows1 ++ rows2) = citations rows1 ++ citations rows2.
Proof. unfold citations. apply bind_app. Qed.

(** Citations scanned later never displace a source kept before. *)
Lemma first_seen_app (cs1 cs2 : list LegalSource) :
  first_seen [] cs1 `prefix_of` first_seen [] (cs1 ++ cs2).
Proof.
  pose proof (foldl_see_source [] (cs1 ++ cs2)) as H12.
  rewrite foldl_app, (foldl_see_source [] cs1), foldl_see_source in H12.
  simpl in H12. apply (f_equal (fmap snd)) in H12.
  rewrite fmap_app, <- !list_fmap_compose in H12. simpl in H12.
  rewrite !list_fmap_id in H12. rewrite <- H12. by apply prefix_app_r.
Qed.

Section lineage_after_query.
Context {messages : Type}.
Context (validate_json : string → messages) (dump_json : messages → string).
Context (legal_agent_run :
           string → LegalDeps → option messages → outcome (LegalResult * messages)).

(** The row a successful call has appended. *)
Lemma post_query_row (req : QueryRequest) (fresh_uuid query_id now : string)
    (db db' : database) (resp : query_response) :
  post_query validate_json dump_json legal_agent_run req fresh_uuid query_id now db
  = (db', Ok resp) →
  ∃ row,
    queries db' = queries db ++ [row] ∧
    q_query_id row = resp_query_id resp ∧
    q_session_id row = resp_session_id resp ∧
    q_user_query row = qr_query req ∧
    q_result_json row = resp_result resp ∧
    q_created_at row = now.
Proof.
  intros (db1 & result & Hens & _ & -> & <- & ->)%post_query_Ok.
  destruct (ensure_session_Ok (resp_session_id resp) now db) as (db1' & Hens' & Hq & _).
  rewrite Hens in Hens'. injection Hens' as <-.
  eexists. simpl. rewrite Hq. by split.
Qed.

(** X6: after a successful call, the lineage of the returned session counts
    one query more than before and lists the query under the returned query
    id, with the question asked, the call's timestamp, the answer,
    confidence and reasoning texts of the returned result, and one cited
    source per source of the returned result, with the same document ids,
    titles, sections and retrieved texts in the same order. *)
Theorem post_query_then_lineage (req : QueryRequest) (fresh_uuid query_id now : string)
    (db db' : database) (resp : query_response) :
  post_query validate_json dump_json legal_agent_run req fresh_uuid query_id now db
  = (db', Ok resp) →
  ∃ before after,
    get_lineage (resp_session_id resp) db = (db, Ok before) ∧
    get_lineage (resp_session_id resp) db' = (db', Ok after) ∧
    total_queries after = S (total_queries before) ∧
    ∃ entry,
      entry ∈ l_queries after ∧
      lq_query_id entry = resp_query_id resp ∧
      lq_user_query entry = qr_query req ∧
      lq_created_at entry = now ∧
      lq_answer entry = answer (resp_result resp) ∧
      lq_confidence entry = confidence (resp_result resp) ∧
      lq_reasoning entry = reasoning (resp_result resp) ∧
      ls_document_id <$> lq_sources_cited entry
        = ls_document_id <$> sources_cited (resp_result resp) ∧
      ls_title <$> lq_sources_cited entry
        = ls_title <$> sources_cited (resp_result resp) ∧
      ls_section <$> lq_sources_cited entry
        = ls_section <$> sources_cited (resp_result resp) ∧
      ls_retrieved_text <$> lq_sources_cited entry
        = ls_retrieved_text <$> sources_cited (resp_result resp).
Proof.
  intros Hpost. destruct (post_query_row _ _ _ _ _ _ _ Hpost)
    as (row & Hrows & Hid & Hsid & Hq & Hres & Hnow).
  eexists _, _. split; [apply get_lineage_eq|]. split; [apply get_lineage_eq|].
  cbn zeta. cbn [total_queries l_queries].
  assert (select_queries db' (resp_session_id resp)
          ≡ₚ select_queries db (resp_session_id resp) ++ [row]) as Hperm.
  { rewrite !select_queries_perm, Hrows.
    by rewrite filter_app, filter_cons_True, filter_nil. }
  split.
  - rewrite Hperm, length_app. simpl. lia.
  - exists (lineage_entry row). split.
    + rewrite Hperm, fmap_app. apply elem_of_app. right. by left.
    + unfold lineage_entry. cbn [lq_query_id lq_user_query lq_created_at lq_answer
                                  lq_confidence lq_reasoning lq_sources_cited].
      by rewrite Hid, Hq, Hres, Hnow.
Qed.

(** X7: a call served under one session, whatever its outcome, leaves the
    lineage and the loaded history of every other session as they were. *)
Theorem post_query_other_sessions (req : QueryRequest) (fresh_uuid query_id now : string)
    (db : database) (other : string) :
  other ≠ request_session_id req fresh_uuid →
  let db' := (post_query validate_json dump_json legal_agent_run
                req fresh_uuid query_id now db).1 in
  (get_lineage other db').2 = (get_lineage other db).2 ∧
  (load_last_history other db').2 = (load_last_history other db).2.
Proof.
  intros Hother. cbn zeta.
  assert (select_queries
            (post_query validate_json dump_json legal_agent_run
               req fresh_uuid query_id now db).1 other
          = select_queries db other) as Hsame.
  { rewrite post_query_eq. cbn zeta.
    set (session_id := request_session_id req fresh_uuid) in *.
    destruct (ensure_session_Ok session_id now db) as (db1 & Hens & Hq & _).
    rewrite Hens. cbn [fst].
    destruct (legal_agent_run _ _ _) as [result|e];
      [|by apply select_queries_same_queries].
    match goal with |- context [insert_query ?r ?d] =>
      destruct (insert_query_cases r d) as [[_ ->]|[_ ->]] end; cbn [fst].
    - rewrite select_queries_snoc_other by done.
      by apply select_queries_same_queries.
    - by apply select_queries_same_queries. }
  rewrite !get_lineage_eq, !load_last_history_eq. cbn zeta. cbn [snd].
  by rewrite Hsame.
Qed.

(** X8: the lineage accumulates. After a successful call the document
    identifiers in [all_sources] of the session are those from before
    together with those the new answer cites. When the call's timestamp is
    not below those of the session's earlier queries, the query takes the
    last place and the sources from before keep their records and their
    places: [all_sources] only grows at the end. *)
Theorem post_query_lineage_accumulates (req : QueryRequest)
    (fresh_uuid query_id now : string) (db db' : database) (resp : query_response) :
  post_query validate_json dump_json legal_agent_run req fresh_uuid query_id now db
  = (db', Ok resp) →
  ∃ before after,
    get_lineage (resp_session_id resp) db = (db, Ok before) ∧
    get_lineage (resp_session_id resp) db' = (db', Ok after) ∧
    (∀ k, k ∈ ls_document_id <$> all_sources after ↔
          k ∈ ls_document_id <$> all_sources before ∨
          k ∈ ls_document_id <$> sources_cited (resp_result resp)) ∧
    ((∀ q, q ∈ queries db → q_session_id q = resp_session_id resp →
           String.leb (q_created_at q) now = true) →
     all_sources before `prefix_of` all_sources after ∧
     ∃ entry, l_queries after = l_queries before ++ [entry] ∧
              lq_query_id entry = resp_query_id resp).
Proof.
  intros Hpost. destruct (post_query_row _ _ _ _ _ _ _ Hpost)
    as (row & Hrows & Hid & Hsid & Hq & Hres & Hnow).
  assert (select_queries db' (resp_session_id resp)
          = select_queries {| sessions := sessions db; queries := queries db ++ [row] |}
                           (q_session_id row)) as Hsel.
  { rewrite Hsid. by apply select_queries_same_queries. }
  eexists _, _. split; [apply get_lineage_eq|]. split; [apply get_lineage_eq|].
  cbn zeta. cbn [all_sources l_queries]. rewrite Hsel, <- Hsid, <- Hres. split.
  - intros k. rewrite !first_seen_ids, !elem_of_citation_ids.
    setoid_rewrite select_queries_snoc_perm. setoid_rewrite elem_of_app.
    setoid_rewrite list_elem_of_singleton. split.
    + intros (r & [Hr| ->] & Hk); [left; eauto|by right].
    + intros [(r & Hr & Hk)|Hk]; [exists r; eauto|exists row; eauto].
  - intros Hle. rewrite select_queries_snoc_last.
    + split.
      * rewrite citations_app. apply first_seen_app.
      * eexists. split; [by rewrite fmap_app|]. by rewrite <- Hid.
    + intros q Hin Hqs. rewrite Hnow. by apply Hle.
Qed.
End lineage_after_query.

(** ** [GET /sessions] and the other endpoints *)

Lemma list_sessions_perm (db : database) :
  NoDup (s_session_id <$> sessions db) →
  ∃ rows, list_sessions db = (db, Ok rows) ∧
          rows ≡ₚ with_query_count db <$> sessions db.
Proof.
  intros Hnodup. eexists. split; [done|].
  rewrite order_by_perm, group_keys_sessions by done.
  rewrite <- list_fmap_compose.
  assert (group_row (left_join db) ∘ s_session_id <$> sessions db
          = with_query_count db <$> sessions db) as ->; [|done].
  apply list_eq_Forall2, Forall2_fmap, Forall_Forall2_diag, Forall_forall.
  intros s Hs. simpl. by apply group_row_session.
Qed.

(** X9: the two read endpoints agree: under the primary key of [sessions],
    the [query_count] that [list_sessions] reports for a session is the
    [total_queries] that [get_lineage] reports for it. *)
Theorem list_sessions_agrees_with_lineage (db : database) :
  primary_keys db →
  ∃ rows,
    list_sessions db = (db, Ok rows) ∧
    ∀ info, info ∈ rows →
      ∃ lin, get_lineage (si_session_id info) db = (db, Ok lin) ∧
             total_queries lin = si_query_count info.
Proof.
  intros [Hnodup _]. destruct (list_sessions_perm db Hnodup) as (rows & Hrows & Hperm).
  exists rows. split; [done|]. intros info Hinfo.
  rewrite Hperm in Hinfo. apply list_elem_of_fmap in Hinfo as (s & -> & Hs).
  eexists. split; [apply get_lineage_eq|].
  cbn zeta. cbn [total_queries]. by rewrite select_queries_length.
Qed.

Lemma sum_indicator (ss : list session_row) (k : string) :
  NoDup (s_session_id <$> ss) → k ∈ s_session_id <$> ss →
  sum_list_with (λ s, if decide (k = s_session_id s) then 1 else 0) ss = 1.
Proof.
  induction ss as [|s ss IH]; [by intros _ ?%not_elem_of_nil|].
  rewrite fmap_cons, NoDup_cons. intros [Hs Hnodup] Hk. simpl.
  destruct (decide (k = s_session_id s)) as [->|Hne].
  - f_equal. clear IH Hk. induction ss as [|s' ss IH]; [done|]. simpl.
    rewrite fmap_cons, not_elem_of_cons in Hs. destruct Hs as [Hne Hs].
    rewrite decide_False by done. apply IH; [done|].
    by apply NoDup_cons in Hnodup as [_ ?].
  - apply IH; [done|]. by apply elem_of_cons in Hk as [?|?].
Qed.

Lemma sum_query_counts (ss : list session_row) (qs : list query_row) :
  NoDup (s_session_id <$> ss) →
  (∀ q, q ∈ qs → q_session_id q ∈ s_session_id <$> ss) →
  sum_list_with (λ s, length (filter (λ q, q_session_id q = s_session_id s) qs)) ss
  = length qs.
Proof.
  intros Hnodup. induction qs as [|q qs IH]; intros Hfk.
  - clear. induction ss as [|s ss IHss]; [done|]. exact IHss.
  - assert (sum_list_with
              (λ s, length (filter (λ q', q_session_id q' = s_session_id s) (q :: qs))) ss
            = sum_list_with (λ s, if decide (q_session_id q = s_session_id s) then 1 else 0) ss
              + sum_list_with
                  (λ s, length (filter (λ q', q_session_id q' = s_session_id s) qs)) ss)
      as ->.
    { clear. induction ss as [|s ss IHss]; [done|]. simpl. rewrite IHss, filter_cons.
      destruct (decide (q_session_id q = s_session_id s)); simpl; lia. }
    rewrite IH by (intros q' Hq'; apply Hfk; by right).
    rewrite sum_indicator; [done|done|]. apply Hfk. by left.
Qed.

(** X10: when the tables keep their keys, the list has one row per session
    and the reported counts add up to the number of stored queries: every
    query is counted, and counted once. *)
Theorem list_sessions_counts_add_up (db : database) :
  primary_keys db → foreign_keys db →
  ∃ rows,
    list_sessions db = (db, Ok rows) ∧
    length rows = length (sessions db) ∧
    sum_list_with si_query_count rows = length (queries db).
Proof.
  intros [Hnodup _] Hfk.
  destruct (list_sessions_perm db Hnodup) as (rows & Hrows & Hperm).
  exists rows. split; [done|]. rewrite Hperm. split; [by rewrite length_fmap|].
  rewrite <- (sum_query_counts (sessions db) (queries db) Hnodup Hfk).
  clear. generalize (sessions db) as ss. intros ss.
  induction ss as [|s ss IH]; [done|]. rewrite fmap_cons. simpl. by rewrite IH.
Qed.

(** ** Two requests ensuring the same session *)

Lemma race_step (session_id now1 now2 now : string) (db0 : database)
    (db : database) (pc other : ensure_pc) (first : bool) :
  select_session db0 session_id = None →
  now = (if first then now1 else now2) →
  race_invariant session_id now1 now2 db0
    (if first then (db, pc, other) else (db, other, pc)) →
  race_invariant session_id now1 now2 db0
    (if first
     then ((ensure_step session_id now pc db).1, (ensure_step session_id now pc db).2, other)
     else ((ensure_step session_id now pc db).1, other, (ensure_step session_id now pc db).2)).
Proof.
  intros Hnew Hnow Hinv.
  assert (∀ row, s_session_id row = session_id →
            select_session {| sessions := sessions db0 ++ [row]; queries := queries db0 |}
                           session_id = Some row) as Hpresent.
  { intros [sid created] <-. by apply select_session_app_new. }
  assert ((db = db0 ∧ (pc = AtSelect ∨ pc = AtInsert None) ∧
           (other = AtSelect ∨ other = AtInsert None)) ∨
          (∃ row, db = {| sessions := sessions db0 ++ [row]; queries := queries db0 |} ∧
                  s_session_id row = session_id ∧
                  ((pc = Finished (Ok tt) ∧ s_created_at row = now) ∨
                   (other = Finished (Ok tt) ∧
                    s_created_at row = (if first then now2 else now1)))))
    as [(-> & Hpc & Hother)|(row & -> & Hrow & Hdone)].
  { destruct first; subst now; unfold race_invariant in Hinv; naive_solver. }
  - destruct Hpc as [->| ->]; simpl.
    + rewrite Hnew. destruct first; left; eauto.
    + rewrite (insert_session_absent _ _ _ Hnew). simpl.
      destruct first; subst now; right; eexists; (split; [done|]); eauto.
  - assert ((ensure_step session_id now pc
               {| sessions := sessions db0 ++ [row]; queries := queries db0 |}).1
            = {| sessions := sessions db0 ++ [row]; queries := queries db0 |} ∧
            (pc = Finished (Ok tt) →
             (ensure_step session_id now pc
                {| sessions := sessions db0 ++ [row]; queries := queries db0 |}).2
             = Finished (Ok tt))) as [Hdb Hpc].
    { destruct pc as [|[existing|]|r]; simpl; try done.
      by rewrite (insert_session_present _ _ _ _ (Hpresent row Hrow)). }
    rewrite Hdb.
    destruct first; subst now; right; exists row; (split; [done|]); (split; [done|]);
      destruct Hdone as [[Hfin ?]|[? ?]]; eauto.
Qed.

Lemma run_ensure_pair_race (session_id now1 now2 : string) (db0 : database)
    (schedule : list bool) (db : database) (pc1 pc2 : ensure_pc) :
  select_session db0 session_id = None →
  race_invariant session_id now1 now2 db0 (db, pc1, pc2) →
  race_invariant session_id now1 now2 db0
    (run_ensure_pair session_id now1 now2 schedule db pc1 pc2).
Proof.
  intros Hnew. revert db pc1 pc2.
  induction schedule as [|[] schedule IH]; intros db pc1 pc2 Hinv; [done|..]; simpl.
  - pose proof (race_step session_id now1 now2 now2 db0 db pc2 pc1 false Hnew eq_refl Hinv)
      as Hstep.
    destruct (ensure_step session_id now2 pc2 db). by apply IH.
  - pose proof (race_step session_id now1 now2 now1 db0 db pc1 pc2 true Hnew eq_refl Hinv)
      as Hstep.
    destruct (ensure_step session_id now1 pc1 db). by apply IH.
Qed.

(** X11: two requests ensure a session id that is not stored yet, their
    check and insert statements interleaved in any order. The two inserts
    never both fail. As soon as one request is through its ensure step, the
    table holds exactly one new row, with that session id and the timestamp
    of one of the two requests; before that nothing has changed. The
    [queries] table is not touched. *)
Theorem ensure_race_one_insert_wins (session_id now1 now2 : string)
    (schedule : list bool) (db : database) :
  select_session db session_id = None →
  ∃ db' pc1 pc2,
    run_ensure_pair session_id now1 now2 schedule db AtSelect AtSelect = (db', pc1, pc2) ∧
    (∀ e1 e2, ¬ (pc1 = Finished (Raised e1) ∧ pc2 = Finished (Raised e2))) ∧
    queries db' = queries db ∧
    (((∃ r, pc1 = Finished r) ∨ (∃ r, pc2 = Finished r)) →
     ∃ row, sessions db' = sessions db ++ [row] ∧
            s_session_id row = session_id ∧
            (s_created_at row = now1 ∨ s_created_at row = now2)) ∧
    ((∀ r, pc1 ≠ Finished r) ∧ (∀ r, pc2 ≠ Finished r) → db' = db).
Proof.
  intros Hnew.
  pose proof (run_ensure_pair_race session_id now1 now2 db schedule db AtSelect AtSelect Hnew)
    as Hinv.
  destruct (run_ensure_pair session_id now1 now2 schedule db AtSelect AtSelect)
    as [[db' pc1] pc2].
  exists db', pc1, pc2. split; [done|].
  destruct Hinv as [(-> & Hpc1 & Hpc2)|(row & -> & Hrow & Hdone)]; [left; eauto|..].
  - split; [naive_solver|]. split; [done|]. split; [naive_solver|done].
  - split; [naive_solver|]. split; [done|]. split; [|naive_solver].
    intros _. exists row. naive_solver.
Qed.

Lemma calm_step (session_id now : string) (db : database) (pc : ensure_pc)
    (row : session_row) :
  select_session db session_id = Some row → calm pc →
  (ensure_step session_id now pc db).1 = db ∧
  calm (ensure_step session_id now pc db).2.
Proof.
  intros Hrow [->|[[row' ->]| ->]]; simpl.
  - rewrite Hrow. split; [done|]. right. left. eauto.
  - split; [done|]. by do 2 right.
  - split; [done|]. by do 2 right.
Qed.

(** X12: for a session id that is stored before either request starts, no
    interleaving raises in either request and none changes the database. *)
Theorem ensure_existing_session_never_raises (session_id now1 now2 : string)
    (schedule : list bool) (db : database) (row : session_row) :
  select_session db session_id = Some row →
  ∃ pc1 pc2,
    run_ensure_pair session_id now1 now2 schedule db AtSelect AtSelect = (db, pc1, pc2) ∧
    (∀ e, pc1 ≠ Finished (Raised e)) ∧ (∀ e, pc2 ≠ Finished (Raised e)).
Proof.
  intros Hrow.
  assert (∀ pc1 pc2, calm pc1 → calm pc2 →
            ∃ pc1' pc2',
              run_ensure_pair session_id now1 now2 schedule db pc1 pc2 = (db, pc1', pc2') ∧
              calm pc1' ∧ calm pc2') as Hrun.
  { induction schedule as [|[] schedule IH]; intros pc1 pc2 Hpc1 Hpc2; simpl.
    - eauto.
    - destruct (calm_step session_id now2 db pc2 row Hrow Hpc2) as [Hdb Hcalm].
      destruct (ensure_step session_id now2 pc2 db) as [d pc2']. simpl in *. subst d.
      by apply IH.
    - destruct (calm_step session_id now1 db pc1 row Hrow Hpc1) as [Hdb Hcalm].
      destruct (ensure_step session_id now1 pc1 db) as [d pc1']. simpl in *. subst d.
      by apply IH. }
  destruct (Hrun AtSelect AtSelect) as (pc1 & pc2 & Heq & Hc1 & Hc2);
    [by left..|].
  exists pc1, pc2. split; [done|]. unfold calm in *. naive_solver.
Qed.

(** ** Retrieval tools on hits from the seed corpus *)

Lemma List_filter_split {A} (f g : A → bool) (l : list A) :
  (∀ x, x ∈ l → g x = negb (f x)) →
  List.filter f l ++ List.filter g l ≡ₚ l ∧
  ∀ x, x ∈ List.filter f l → x ∉ List.filter g l.
Proof.
  intros Hfg. split.
  - induction l as [|x l IH]; [done|]. simpl.
    rewrite (Hfg x) by left.
    assert (List.filter f l ++ List.filter g l ≡ₚ l) as IH'.
    { apply IH. intros y Hy. apply Hfg. by right. }
    clear IH. rename IH' into IH.
    destruct (f x); simpl.
    + by f_equiv.
    + by rewrite <- Permutation_middle, IH.
  - intros x [Hx Hf]%elem_of_List_filter [_ Hg]%elem_of_List_filter.
    rewrite (Hfg x Hx), Hf in Hg. done.
Qed.

(** Each title of the seed corpus carries a marker of exactly one kind. *)
Lemma seed_titles_one_kind (title : string) :
  title ∈ sd_title <$> SEED_DOCUMENTS →
  contains "OR Art" title = negb (contains "BGer" title || contains "Mietgericht" title).
Proof.
  revert title. apply Forall_forall. repeat constructor.
Qed.

Section retrieval_more.
Context {float vector : Type}.
Context (get_embedding : string → outcome vector).
Context (query_points : string → vector → nat → outcome (list (ScoredPoint float))).

(** X14: when every retrieved title is a title of the seed corpus, the two
    tools split the retrieved documents between them: each document is
    returned by exactly one of case-law search and statute search. *)
Theorem seeded_results_split (query : string) (results : list (document float)) :
  search_documents get_embedding query_points query 3 = Ok results →
  (∀ r, r ∈ results → d_title r ∈ sd_title <$> SEED_DOCUMENTS) →
  ∃ cases statutes,
    search_case_law get_embedding query_points query = Ok cases ∧
    search_statutes get_embedding query_points query = Ok statutes ∧
    cases ++ statutes ≡ₚ results ∧
    (∀ r, r ∈ cases → r ∉ statutes).
Proof.
  intros Hres Hseed. unfold search_case_law, search_statutes. rewrite Hres.
  eexists _, _. split; [done|]. split; [done|].
  apply List_filter_split. intros r Hr. unfold is_statute, is_case_law.
  by apply seed_titles_one_kind, Hseed.
Qed.
End retrieval_more.

(** ** Seeding again, and seeding that fails *)

Section seeding_more.
Context {vector : Type}.
Context (get_embedding : string → outcome vector).

(** The two ways [seed_collection] ends. *)
Lemma seed_collection_eq (st : gmap string (collection vector)) :
  seed_collection get_embedding st =
  match embed_documents get_embedding 0 SEED_DOCUMENTS [] with
  | Ok points =>
    (<[COLLECTION_NAME :=
         {| c_config := {| vp_size := EMBEDDING_DIM; vp_distance := COSINE |};
            c_points := foldl (λ m p, <[ps_id p := (ps_vector p, ps_payload p)]> m)
                              ∅ points |}]> st, Ok tt)
  | Raised e =>
    (<[COLLECTION_NAME :=
         {| c_config := {| vp_size := EMBEDDING_DIM; vp_distance := COSINE |};
            c_points := ∅ |}]> st, Raised e)
  end.
Proof.
  unfold seed_collection, collection_exists, delete_collection, create_collection, upsert.
  unfold_M.
  destruct (st !! COLLECTION_NAME) as [old|] eqn:Hold.
  - rewrite lookup_delete_eq, insert_delete_eq.
    destruct (embed_documents _ _ _ _) as [points|e]; [|done].
    by rewrite lookup_insert_eq, insert_insert_eq.
  - rewrite Hold.
    destruct (embed_documents _ _ _ _) as [points|e]; [|done].
    by rewrite lookup_insert_eq, insert_insert_eq.
Qed.

(** The loop stops at the first embedding call that raises. *)
Lemma embed_documents_Raised (i : nat) (docs : list seed_document)
    (points : list (PointStruct vector)) (j : nat) (doc : seed_document) (e : exn) :
  docs !! j = Some doc →
  get_embedding (sd_text doc) = Raised e →
  (∀ k d, k < j → docs !! k = Some d → ∃ v, get_embedding (sd_text d) = Ok v) →
  embed_documents get_embedding i docs points = Raised e.
Proof.
  revert i points j. induction docs as [|d docs IH]; intros i points j; [done|].
  destruct j as [|j]; simpl.
  - intros [= ->] -> _. done.
  - intros Hdoc Hraise Hbefore.
    destruct (Hbefore 0 d) as [v ->]; [lia|done|].
    eapply IH; [done..|]. intros k d' Hk Hd'. apply (Hbefore (S k) d'); [lia|done].
Qed.

(** X15: seeding is idempotent and forgets the past. When the embedding
    calls succeed, seeding a store that has just been seeded changes nothing,
    and the collection that seeding leaves does not depend on what the store
    held before; collections under other names are not touched. *)
Theorem seed_collection_idempotent (st : gmap string (collection vector)) :
  (∀ doc, doc ∈ SEED_DOCUMENTS → ∃ v, get_embedding (sd_text doc) = Ok v) →
  ∃ st1,
    seed_collection get_embedding st = (st1, Ok tt) ∧
    seed_collection get_embedding st1 = (st1, Ok tt) ∧
    ∀ st2, ∃ st2',
      seed_collection get_embedding st2 = (st2', Ok tt) ∧
      st2' !! COLLECTION_NAME = st1 !! COLLECTION_NAME ∧
      ∀ name, name ≠ COLLECTION_NAME → st2' !! name = st2 !! name.
Proof.
  intros Hall.
  destruct (embed_documents_Ok get_embedding 0 SEED_DOCUMENTS [] Hall)
    as (new & Hnew & _).
  eexists. rewrite !seed_collection_eq, Hnew. split; [done|].
  split; [by rewrite insert_insert_eq|].
  intros st2. eexists. rewrite seed_collection_eq, Hnew. split; [done|].
  rewrite !lookup_insert_eq. split; [done|].
  intros name Hname. by rewrite lookup_insert_ne.
Qed.

(** X16: when an embedding call raises, seeding raises that exception, the
    one of the first document whose call fails, and nothing is upserted: the
    store is left with a fresh, empty collection, and the points that the
    collection held before seeding started are gone. *)
Theorem seed_collection_embedding_failure (st : gmap string (collection vector))
    (j : nat) (doc : seed_document) (e : exn) :
  SEED_DOCUMENTS !! j = Some doc →
  get_embedding (sd_text doc) = Raised e →
  (∀ k d, k < j → SEED_DOCUMENTS !! k = Some d →
          ∃ v, get_embedding (sd_text d) = Ok v) →
  seed_collection get_embedding st =
  (<[COLLECTION_NAME :=
       {| c_config := {| vp_size := 1536; vp_distance := COSINE |};
          c_points := ∅ |}]> st, Raised e).
Proof.
  intros Hdoc Hraise Hbefore. rewrite seed_collection_eq.
  by rewrite (embed_documents_Raised 0 SEED_DOCUMENTS [] j doc e).
Qed.

End seeding_more.

(** * The further properties on the sample data *)

Lemma sample_foreign_keys : foreign_keys Sample.db.
Proof.
  unfold foreign_keys.
  apply (Forall_forall (λ q, q_session_id q ∈ s_session_id <$> sessions Sample.db)).
  repeat constructor; apply (bool_decide_unpack _); by vm_compute.
Defined.

Lemma post_query_session_choice_witness :
  ∃ db' resp,
    post_query id id Sample.agent {| qr_query := "new?"; qr_session_id := Some "" |}
               "uuid-1" "uuid-2" "2024-06-01T00:00:00+00:00" Sample.db = (db', Ok resp) ∧
    resp_session_id resp = "uuid-1" ∧ resp_query_id resp = "uuid-2" ∧
    select_session db' "uuid-1"
    = Some {| s_session_id := "uuid-1"; s_created_at := "2024-06-01T00:00:00+00:00" |}.
Proof.
  eexists _, _. split; [vm_compute; reflexivity|].
  destruct (post_query_session_choice id id Sample.agent
              {| qr_query := "new?"; qr_session_id := Some "" |}
              "uuid-1" "uuid-2" "2024-06-01T00:00:00+00:00" Sample.db _ _ eq_refl)
    as (Hqid & Hfresh & _ & row & Hrow & Hnew).
  split; [apply Hfresh; by right|]. split; [done|].
  change (row = {| s_session_id := "uuid-1";
                   s_created_at := "2024-06-01T00:00:00+00:00" |}) in Hnew.
  rewrite Hnew in Hrow. exact Hrow.
Defined.

Lemma post_query_agent_failure_witness :
  ∃ db',
    post_query id id Sample2.failing_agent
               {| qr_query := "new?"; qr_session_id := None |}
               "uuid-1" "uuid-2" "2024-06-01T00:00:00+00:00" Sample.db
    = (db', Raised (UpstreamError "agent")) ∧
    queries db' = queries Sample.db ∧
    is_Some (select_session db' "uuid-1").
Proof.
  exact (post_query_agent_failure id id Sample2.failing_agent
           {| qr_query := "new?"; qr_session_id := None |}
           "uuid-1" "uuid-2" "2024-06-01T00:00:00+00:00" Sample.db _ eq_refl).
Defined.

Lemma post_query_taken_query_id_witness :
  let served :=
    post_query id id Sample.agent {| qr_query := "again?"; qr_session_id := Some "s1" |}
               "uuid-1" "q1" "2024-06-01T00:00:00+00:00" Sample.db in
  (∃ e, served.2 = Raised e) ∧ queries served.1 = queries Sample.db.
Proof.
  pose proof (post_query_taken_query_id id id Sample.agent
                {| qr_query := "again?"; qr_session_id := Some "s1" |}
                "uuid-1" "q1" "2024-06-01T00:00:00+00:00" Sample.db) as Htaken.
  cbn zeta in Htaken. destruct Htaken as [_ Htaken].
  apply Htaken. apply (bool_decide_unpack _). by vm_compute.
Defined.

Lemma serve_keeps_keys_witness :
  let calls :=
    [ {| call_req := {| qr_query := "a"; qr_session_id := None |};
         call_fresh_uuid := "u1"; call_query_id := "k1";
         call_now := "2024-06-01T00:00:00+00:00" |};
      {| call_req := {| qr_query := "b"; qr_session_id := Some "u1" |};
         call_fresh_uuid := "u2"; call_query_id := "k1";
         call_now := "2024-06-01T00:00:05+00:00" |};
      {| call_req := {| qr_query := "c"; qr_session_id := Some "elsewhere" |};
         call_fresh_uuid := "u3"; call_query_id := "k2";
         call_now := "2024-05-31T00:00:00+00:00" |} ] in
  primary_keys (serve id id Sample.agent calls empty_database) ∧
  foreign_keys (serve id id Sample.agent calls empty_database).
Proof.
  apply serve_keeps_keys;
    [apply empty_database_primary_keys | apply empty_database_foreign_keys].
Defined.

Lemma post_query_then_lineage_witness :
  ∃ db' resp before after,
    post_query id id Sample2.citing_agent
               {| qr_query := "and C?"; qr_session_id := Some "s2" |}
               "uuid-1" "q4" "2024-06-01T00:00:00+00:00" Sample.db = (db', Ok resp) ∧
    get_lineage "s2" Sample.db = (Sample.db, Ok before) ∧
    get_lineage "s2" db' = (db', Ok after) ∧
    total_queries before = 1 ∧ total_queries after = 2.
Proof.
  eexists _, _.
  destruct (post_query_then_lineage id id Sample2.citing_agent
              {| qr_query := "and C?"; qr_session_id := Some "s2" |}
              "uuid-1" "q4" "2024-06-01T00:00:00+00:00" Sample.db _ _ eq_refl)
    as (before & after & Hbefore & Hafter & Hcount & _).
  exists before, after. split; [vm_compute; reflexivity|].
  split; [exact Hbefore|]. split; [exact Hafter|].
  assert (total_queries before = 1) as Hone.
  { vm_compute in Hbefore. by injection Hbefore as <-. }
  split; [done|]. by rewrite Hcount, Hone.
Defined.

Lemma post_query_other_sessions_witness :
  (get_lineage "s1"
     (post_query id id Sample2.citing_agent
                 {| qr_query := "and C?"; qr_session_id := Some "s2" |}
                 "uuid-1" "q4" "2024-06-01T00:00:00+00:00" Sample.db).1).2
  = (get_lineage "s1" Sample.db).2.
Proof.
  apply (post_query_other_sessions id id Sample2.citing_agent
           {| qr_query := "and C?"; qr_session_id := Some "s2" |}
           "uuid-1" "q4" "2024-06-01T00:00:00+00:00" Sample.db "s1").
  by vm_compute.
Defined.

Lemma post_query_lineage_accumulates_witness :
  ∃ db' resp before after,
    post_query id id Sample2.citing_agent
               {| qr_query := "and C?"; qr_session_id := Some "s2" |}
               "uuid-1" "q4" "2024-06-01T00:00:00+00:00" Sample.db = (db', Ok resp) ∧
    get_lineage "s2" Sample.db = (Sample.db, Ok before) ∧
    get_lineage "s2" db' = (db', Ok after) ∧
    all_sources before `prefix_of` all_sources after.
Proof.
  eexists _, _.
  destruct (post_query_lineage_accumulates id id Sample2.citing_agent
              {| qr_query := "and C?"; qr_session_id := Some "s2" |}
              "uuid-1" "q4" "2024-06-01T00:00:00+00:00" Sample.db _ _ eq_refl)
    as (before & after & Hbefore & Hafter & _ & Hlater).
  exists before, after. split; [vm_compute; reflexivity|].
  split; [exact Hbefore|]. split; [exact Hafter|].
  apply Hlater.
  apply (Forall_forall
           (λ q, q_session_id q = "s2" →
                 String.leb (q_created_at q) "2024-06-01T00:00:00+00:00" = true)).
  repeat constructor; done.
Defined.

Lemma list_sessions_agrees_with_lineage_witness :
  ∃ rows,
    list_sessions Sample.db = (Sample.db, Ok rows) ∧
    ∀ info, info ∈ rows →
      ∃ lin, get_lineage (si_session_id info) Sample.db = (Sample.db, Ok lin) ∧
             total_queries lin = si_query_count info.
Proof. exact (list_sessions_agrees_with_lineage Sample.db sample_primary_keys). Defined.

Lemma list_sessions_counts_add_up_witness :
  ∃ rows,
    list_sessions Sample.db = (Sample.db, Ok rows) ∧
    length rows = 3 ∧ sum_list_with si_query_count rows = 3.
Proof.
  exact (list_sessions_counts_add_up Sample.db sample_primary_keys sample_foreign_keys).
Defined.

Lemma ensure_race_one_insert_wins_witness :
  ∃ db' pc1 pc2,
    run_ensure_pair "s" "2024-01-01T00:00:00+00:00" "2024-01-01T00:00:01+00:00"
                    [true; false; true; false] empty_database AtSelect AtSelect
    = (db', pc1, pc2) ∧
    (∀ e1 e2, ¬ (pc1 = Finished (Raised e1) ∧ pc2 = Finished (Raised e2))) ∧
    ∃ row, sessions db' = [row] ∧ s_session_id row = "s".
Proof.
  destruct (ensure_race_one_insert_wins "s" "2024-01-01T00:00:00+00:00"
              "2024-01-01T00:00:01+00:00" [true; false; true; false]
              empty_database eq_refl)
    as (db' & pc1 & pc2 & Hrun & Hnot & _ & Hrow & _).
  exists db', pc1, pc2. split; [done|]. split; [done|].
  destruct Hrow as (row & Hrow & Hid & _).
  - left. vm_compute in Hrun. injection Hrun as _ <- _. eauto.
  - exists row. by split.
Defined.

Lemma ensure_existing_session_never_raises_witness :
  ∃ pc1 pc2,
    run_ensure_pair "s1" "2024-06-01T00:00:00+00:00" "2024-06-01T00:00:01+00:00"
                    [false; true; false; true] Sample.db AtSelect AtSelect
    = (Sample.db, pc1, pc2) ∧
    (∀ e, pc1 ≠ Finished (Raised e)) ∧ (∀ e, pc2 ≠ Finished (Raised e)).
Proof.
  exact (ensure_existing_session_never_raises "s1" "2024-06-01T00:00:00+00:00"
           "2024-06-01T00:00:01+00:00" [false; true; false; true] Sample.db _ eq_refl).
Defined.

Lemma seeded_results_split_witness :
  ∃ cases statutes,
    search_case_law Sample.embedding Sample2.seeded_hits "termination" = Ok cases ∧
    search_statutes Sample.embedding Sample2.seeded_hits "termination" = Ok statutes ∧
    length cases = 2 ∧ length statutes = 1.
Proof.
  destruct (seeded_results_split Sample.embedding Sample2.seeded_hits "termination"
              _ eq_refl)
    as (cases & statutes & Hcases & Hstatutes & _ & _).
  - apply Forall_forall.
    repeat constructor; apply (bool_decide_unpack _); by vm_compute.
  - exists cases, statutes. split; [done|]. split; [done|].
    vm_compute in Hcases, Hstatutes.
    injection Hcases as <-. injection Hstatutes as <-. done.
Defined.

Lemma seed_collection_idempotent_witness :
  ∃ st1,
    seed_collection Sample.embedding Sample.stale_store = (st1, Ok tt) ∧
    seed_collection Sample.embedding st1 = (st1, Ok tt) ∧
    (seed_collection Sample.embedding ∅).1 !! COLLECTION_NAME = st1 !! COLLECTION_NAME.
Proof.
  destruct (seed_collection_idempotent Sample.embedding Sample.stale_store)
    as (st1 & Hfirst & Hagain & Hany).
  { intros doc _. by eexists. }
  exists st1. split; [done|]. split; [done|].
  destruct (Hany ∅) as (st2' & -> & Hsame & _). done.
Defined.

Lemma seed_collection_embedding_failure_witness :
  seed_collection Sample2.failing_embedding Sample.stale_store =
  (<[COLLECTION_NAME :=
       {| c_config := {| vp_size := 1536; vp_distance := COSINE |};
          c_points := ∅ |}]> Sample.stale_store,
   Raised (UpstreamError "openai")).
Proof.
  apply (seed_collection_embedding_failure Sample2.failing_embedding
           Sample.stale_store 2 _ _ eq_refl eq_refl).
  intros [|[|k]] d Hk Hd; [| |lia]; injection Hd as <-; by eexists.
Defined.

(** * Conversations and interleavings *)

Section conversation.
Context {messages : Type}.
Context (validate_json : string → messages) (dump_json : messages → string).
Context (legal_agent_run :
           string → LegalDeps → option messages → outcome (LegalResult * messages)).

(** What a successful call ran the agent on and what it appended, in terms
    of the database it started from. *)
Lemma post_query_run (req : QueryRequest) (fresh_uuid query_id now : string)
    (db db' : database) (resp : query_response) :
  post_query validate_json dump_json legal_agent_run req fresh_uuid query_id now db
  = (db', Ok resp) →
  ∃ result,
    resp_session_id resp = request_session_id req fresh_uuid ∧
    legal_agent_run (qr_query req)
      {| deps_session_id := resp_session_id resp; deps_user_query := qr_query req |}
      (validate_json <$>
         last (q_messages_json <$> select_queries db (resp_session_id resp)))
    = Ok result ∧
    resp_result resp = result.1 ∧
    queries db' = queries db ++
      [ {| q_query_id := query_id;
           q_session_id := resp_session_id resp;
           q_user_query := qr_query req;
           q_result_json := result.1;
           q_messages_json := dump_json result.2;
           q_created_at := now |} ].
Proof.
  rewrite post_query_eq. cbn zeta.
  set (session_id := request_session_id req fresh_uuid).
  destruct (ensure_session_Ok session_id now db) as (db1 & Hens & Hq & _).
  rewrite Hens. cbn [fst].
  destruct (legal_agent_run _ _ _) as [result|e] eqn:Hrun; [|done].
  match goal with |- context [insert_query ?r ?d] =>
    destruct (insert_query_cases r d) as [[_ ->]|[_ ->]]; [|done] end.
  intros [= <- <-]. exists result. cbn [resp_session_id resp_result queries].
  by rewrite Hq.
Qed.

(** X18: what reaches the agent as history is the previous turn alone. When
    parsing undoes serialising, and a successful call is followed by a
    successful call on the same session, the first with a timestamp above
    those of the session's earlier queries, the second agent run receives
    exactly the new messages of the first run. *)
Theorem history_is_previous_new_messages
    (req1 req2 : QueryRequest) (fresh1 fresh2 query_id1 query_id2 now1 now2 : string)
    (db db1 db2 : database) (resp1 resp2 : query_response) :
  (∀ m, validate_json (dump_json m) = m) →
  post_query validate_json dump_json legal_agent_run req1 fresh1 query_id1 now1 db
  = (db1, Ok resp1) →
  (∀ q, q ∈ queries db → q_session_id q = resp_session_id resp1 →
        String.ltb (q_created_at q) now1 = true) →
  post_query validate_json dump_json legal_agent_run req2 fresh2 query_id2 now2 db1
  = (db2, Ok resp2) →
  resp_session_id resp2 = resp_session_id resp1 →
  ∃ history1 result1 result2,
    legal_agent_run (qr_query req1)
      {| deps_session_id := resp_session_id resp1; deps_user_query := qr_query req1 |}
      history1 = Ok result1 ∧
    resp_result resp1 = result1.1 ∧
    legal_agent_run (qr_query req2)
      {| deps_session_id := resp_session_id resp1; deps_user_query := qr_query req2 |}
      (Some result1.2) = Ok result2 ∧
    resp_result resp2 = result2.1.
Proof.
  intros Hround Hpost1 Hlater Hpost2 Hsame.
  apply post_query_run in Hpost1 as (result1 & _ & Hrun1 & Hres1 & Hrows1).
  apply post_query_run in Hpost2 as (result2 & _ & Hrun2 & Hres2 & _).
  rewrite Hsame in Hrun2.
  eexists _, result1, result2. split; [exact Hrun1|]. split; [done|]. split; [|done].
  set (row := {| q_query_id := query_id1;
                 q_session_id := resp_session_id resp1;
                 q_user_query := qr_query req1;
                 q_result_json := result1.1;
                 q_messages_json := dump_json result1.2;
                 q_created_at := now1 |}) in *.
  assert (select_queries db1 (resp_session_id resp1)
          = select_queries db (resp_session_id resp1) ++ [row]) as Hsel.
  { rewrite (select_queries_same_queries db1
               {| sessions := sessions db; queries := queries db ++ [row] |}) by done.
    apply (select_queries_snoc_last db row).
    intros q Hq Hsid. apply string_ltb_leb. by apply Hlater. }
  rewrite Hsel, fmap_last, last_snoc in Hrun2. simpl in Hrun2.
  by rewrite Hround in Hrun2.
Qed.

(** X19: a first question without session id, served under a fresh uuid
    that no stored query uses, followed by a question under the returned
    session id: when both calls succeed, both were served under the fresh
    uuid and the lineage of that session lists exactly the two queries. *)
Theorem two_calls_then_lineage
    (req1 req2 : QueryRequest) (fresh1 fresh2 query_id1 query_id2 now1 now2 : string)
    (db db1 db2 : database) (resp1 resp2 : query_response) :
  qr_session_id req1 = None →
  fresh1 ≠ "" →
  (∀ q, q ∈ queries db → q_session_id q ≠ fresh1) →
  post_query validate_json dump_json legal_agent_run req1 fresh1 query_id1 now1 db
  = (db1, Ok resp1) →
  qr_session_id req2 = Some (resp_session_id resp1) →
  post_query validate_json dump_json legal_agent_run req2 fresh2 query_id2 now2 db1
  = (db2, Ok resp2) →
  resp_session_id resp1 = fresh1 ∧ resp_session_id resp2 = fresh1 ∧
  ∃ lin,
    get_lineage fresh1 db2 = (db2, Ok lin) ∧
    total_queries lin = 2 ∧
    lq_query_id <$> l_queries lin ≡ₚ [query_id1; query_id2].
Proof.
  intros Hnone Hfresh Hunused Hpost1 Hreq2 Hpost2.
  apply post_query_run in Hpost1 as (result1 & Hsid1 & _ & _ & Hrows1).
  apply post_query_run in Hpost2 as (result2 & Hsid2 & _ & _ & Hrows2).
  unfold request_session_id in Hsid1, Hsid2. rewrite Hnone in Hsid1.
  rewrite Hreq2, Hsid1 in Hsid2. apply String.eqb_neq in Hfresh.
  rewrite Hfresh in Hsid2. rewrite Hsid1, Hsid2 in *.
  split; [done|]. split; [done|].
  eexists. split; [apply get_lineage_eq|]. cbn zeta. cbn [total_queries l_queries].
  assert (select_queries db2 fresh1 ≡ₚ
          [ {| q_query_id := query_id1; q_session_id := fresh1;
               q_user_query := qr_query req1; q_result_json := result1.1;
               q_messages_json := dump_json result1.2; q_created_at := now1 |};
            {| q_query_id := query_id2; q_session_id := fresh1;
               q_user_query := qr_query req2; q_result_json := result2.1;
               q_messages_json := dump_json result2.2; q_created_at := now2 |} ])
    as Hperm.
  { rewrite select_queries_perm, Hrows2, Hrows1, !filter_app.
    rewrite (filter_none _ (queries db)) by done.
    by rewrite !filter_cons_True, !filter_nil by done. }
  split; [by rewrite Hperm|]. by rewrite Hperm.
Qed.
End conversation.

Lemma ensure_step_primary_keys (session_id now : string) (pc : ensure_pc)
    (db : database) :
  primary_keys db → primary_keys (ensure_step session_id now pc db).1.
Proof.
  intros Hkeys. destruct pc as [|[existing|]|r]; simpl; try done.
  pose proof (insert_session_primary_keys session_id now db Hkeys).
  by destruct (insert_session session_id now db).
Qed.

(** X20: the race cannot corrupt the table. From any progress of the two
    requests and under any interleaving of their statements, the primary
    keys are kept: a session id never gets a second row. *)
Theorem ensure_race_keeps_primary_keys (session_id now1 now2 : string)
    (schedule : list bool) (db : database) (pc1 pc2 : ensure_pc) :
  primary_keys db →
  primary_keys (run_ensure_pair session_id now1 now2 schedule db pc1 pc2).1.1.
Proof.
  revert db pc1 pc2. induction schedule as [|[] schedule IH]; intros db pc1 pc2 Hkeys.
  - done.
  - simpl. pose proof (ensure_step_primary_keys session_id now2 pc2 db Hkeys).
    destruct (ensure_step session_id now2 pc2 db). by apply IH.
  - simpl. pose proof (ensure_step_primary_keys session_id now1 pc1 db Hkeys).
    destruct (ensure_step session_id now1 pc1 db). by apply IH.
Qed.

Lemma history_is_previous_new_messages_witness :
  ∃ db1 resp1 db2 resp2,
    post_query id id Sample.agent {| qr_query := "first"; qr_session_id := Some "s1" |}
               "u1" "k1" "2024-06-01T00:00:00+00:00" Sample.db = (db1, Ok resp1) ∧
    post_query id id Sample.agent {| qr_query := "second"; qr_session_id := Some "s1" |}
               "u2" "k2" "2024-06-01T00:00:05+00:00" db1 = (db2, Ok resp2) ∧
    Sample.agent "second" {| deps_session_id := "s1"; deps_user_query := "second" |}
                 (Some "first") = Ok (resp_result resp2, "second").
Proof.
  eexists _, _, _, _. split; [vm_compute; reflexivity|].
  split; [vm_compute; reflexivity|].
  assert (∀ q, q ∈ queries Sample.db → q_session_id q = "s1" →
               String.ltb (q_created_at q) "2024-06-01T00:00:00+00:00" = true)
    as Hlater.
  { apply (Forall_forall
             (λ q, q_session_id q = "s1" →
                   String.ltb (q_created_at q) "2024-06-01T00:00:00+00:00" = true)).
    repeat constructor; done. }
  destruct (history_is_previous_new_messages id id Sample.agent
              {| qr_query := "first"; qr_session_id := Some "s1" |}
              {| qr_query := "second"; qr_session_id := Some "s1" |}
              "u1" "u2" "k1" "k2" "2024-06-01T00:00:00+00:00"
              "2024-06-01T00:00:05+00:00" Sample.db _ _ _ _
              (λ m, eq_refl) eq_refl Hlater eq_refl eq_refl)
    as (history1 & result1 & result2 & _ & _ & _ & _).
  reflexivity.
Defined.

Lemma two_calls_then_lineage_witness :
  ∃ db1 resp1 db2 resp2 lin,
    post_query id id Sample.agent {| qr_query := "first"; qr_session_id := None |}
               "u1" "k1" "2024-06-01T00:00:00+00:00" Sample.db = (db1, Ok resp1) ∧
    post_query id id Sample.agent
               {| qr_query := "second"; qr_session_id := Some (resp_session_id resp1) |}
               "u2" "k2" "2024-06-01T00:00:05+00:00" db1 = (db2, Ok resp2) ∧
    get_lineage "u1" db2 = (db2, Ok lin) ∧ total_queries lin = 2.
Proof.
  eexists _, _, _, _.
  assert (∀ q, q ∈ queries Sample.db → q_session_id q ≠ "u1") as Hunused.
  { apply Forall_forall. repeat constructor; done. }
  destruct (two_calls_then_lineage id id Sample.agent
              {| qr_query := "first"; qr_session_id := None |}
              {| qr_query := "second"; qr_session_id := Some "u1" |}
              "u1" "u2" "k1" "k2" "2024-06-01T00:00:00+00:00"
              "2024-06-01T00:00:05+00:00" Sample.db _ _ _ _
              eq_refl ltac:(done) Hunused eq_refl eq_refl eq_refl)
    as (_ & _ & lin & Hlin & Htotal & _).
  exists lin. split; [vm_compute; reflexivity|]. split; [vm_compute; reflexivity|].
  by split.
Defined.

Lemma ensure_race_keeps_primary_keys_witness :
  primary_keys
    (run_ensure_pair "s9" "2024-06-01T00:00:00+00:00" "2024-06-01T00:00:01+00:00"
                     [false; true; true; false] Sample.db AtSelect AtSelect).1.1.
Proof. exact (ensure_race_keeps_primary_keys _ _ _ _ _ _ _ sample_primary_keys). Defined.
